(** * lifei6671/i18n: the template engine and the translation lookup

    A shallow embedding of the Go package [i18n] (template parser, value
    resolver, formatter registry, evaluator, AST cache, validator and
    [Locale.T]) and the properties of its specification proved, or
    refuted, over it.

    Conventions of the embedding.
    - A Go [string] is the list of its code points ([[]rune(s)]); the
      texts handled are valid UTF-8, on which [[]rune(s)] and [string(rs)]
      are inverse of each other.  Byte lengths and byte offsets, where the
      source uses them, are recomputed from the code points ([utf8_len]).
    - A Go result pair [(T, error)] is a pair [T * option error]; an
      [error] records the site that built it and the values its message
      interpolates.
    - A run-time panic and the exhaustion of the recursion budget of the
      model are the two other constructors of [outcome].
    - The package-level variables [astCache] and [formatterRegistry] are
      passed explicitly; mutexes are not modelled (one call at a time). *)

From Stdlib Require Import ZArith List String Ascii Bool Lia.
From Stdlib Require Import Floats.SpecFloat.
From stdpp Require Import gmap list.

Import ListNotations.
Local Open Scope Z_scope.

(** ** Strings *)

Abbreviation rune := Z (only parsing).
Abbreviation gostring := (list Z) (only parsing).

Module utf8.

Definition cont (b : Z) : bool := (128 <=? b) && (b <=? 191).

Definition RuneError : rune := 65533.

(** [[]rune(s)] on the bytes of [s]: one code point per well-formed
    sequence, [RuneError] for a byte that starts none. *)
Fixpoint decode (bs : list Z) : gostring :=
  match bs with
  | [] => []
  | b0 :: t0 =>
    if b0 <? 128 then b0 :: decode t0
    else
      match t0 with
      | b1 :: t1 =>
        if (194 <=? b0) && (b0 <=? 223) && cont b1
        then ((b0 - 192) * 64 + (b1 - 128)) :: decode t1
        else
          match t1 with
          | b2 :: t2 =>
            if (224 <=? b0) && (b0 <=? 239) && cont b1 && cont b2
               && (negb (b0 =? 224) || (160 <=? b1))
               && (negb (b0 =? 237) || (b1 <=? 159))
            then ((b0 - 224) * 4096 + (b1 - 128) * 64 + (b2 - 128)) :: decode t2
            else
              match t2 with
              | b3 :: t3 =>
                if (240 <=? b0) && (b0 <=? 244) && cont b1 && cont b2 && cont b3
                   && (negb (b0 =? 240) || (144 <=? b1))
                   && (negb (b0 =? 244) || (b1 <=? 143))
                then ((b0 - 240) * 262144 + (b1 - 128) * 4096
                      + (b2 - 128) * 64 + (b3 - 128)) :: decode t3
                else RuneError :: decode t0
              | [] => RuneError :: decode t0
              end
          | [] => RuneError :: decode t0
          end
      | [] => [RuneError]
      end
  end.

(** Number of bytes of the UTF-8 encoding of a code point. *)
Definition utf8_len (r : rune) : Z :=
  if r <? 0 then 3
  else if r <? 128 then 1
  else if r <? 2048 then 2
  else if (55296 <=? r) && (r <=? 57343) then 3
  else if r <? 65536 then 3
  else if r <=? 1114111 then 4
  else 3.

(** [len(s)]: the length in bytes. *)
Definition byte_len (s : gostring) : Z :=
  fold_right (fun r acc => utf8_len r + acc) 0 s.

End utf8.

(** The Go string written by a literal of this file. *)
Definition gs (s : string) : gostring :=
  utf8.decode (map (fun a => Z.of_nat (nat_of_ascii a)) (list_ascii_of_string s)).

Definition string_eqb (a b : gostring) : bool :=
  bool_decide (a = b).

Module unicode.

(** [unicode.IsSpace]. *)
Definition IsSpace (r : rune) : bool :=
  ((9 <=? r) && (r <=? 13)) || (r =? 32) || (r =? 133) || (r =? 160)
  || (r =? 5760) || ((8192 <=? r) && (r <=? 8202))
  || (r =? 8232) || (r =? 8233) || (r =? 8239) || (r =? 8287) || (r =? 12288).

End unicode.

Module strings.

Fixpoint trim_left (s : gostring) : gostring :=
  match s with
  | [] => []
  | r :: s' => if unicode.IsSpace r then trim_left s' else s
  end.

(** [strings.TrimSpace]. *)
Definition TrimSpace (s : gostring) : gostring :=
  rev (trim_left (rev (trim_left s))).

(** [strings.Split(s, sep)] for a separator [sep] of one character:
    the pieces between the occurrences of [sep], at least one piece. *)
Fixpoint Split (s : gostring) (sep : rune) : list gostring :=
  match s with
  | [] => [[]]
  | r :: s' =>
    if r =? sep then [] :: Split s' sep
    else
      match Split s' sep with
      | p :: ps => (r :: p) :: ps
      | [] => [[r]]
      end
  end.

(** [strings.SplitN(s, sep, 2)] for a separator of one character: cut
    at the first occurrence only. *)
Fixpoint SplitN2 (s : gostring) (sep : rune) : list gostring :=
  match s with
  | [] => [[]]
  | r :: s' =>
    if r =? sep then [[]; s']
    else
      match SplitN2 s' sep with
      | p :: ps => (r :: p) :: ps
      | [] => [[r]]
      end
  end.

(** [strings.Contains(s, sub)] for [sub] of one character. *)
Definition Contains (s : gostring) (c : rune) : bool :=
  existsb (fun r => r =? c) s.

(** [strings.ReplaceAll(s, old, "")] for [old] of one character. *)
Definition RemoveAll (s : gostring) (c : rune) : gostring :=
  List.filter (fun r => negb (r =? c)) s.

Fixpoint HasPrefix (s p : gostring) : bool :=
  match p, s with
  | [], _ => true
  | c :: p', r :: s' => (r =? c) && HasPrefix s' p'
  | _ :: _, [] => false
  end.

(** [strings.TrimPrefix]. *)
Definition TrimPrefix (s p : gostring) : gostring :=
  if HasPrefix s p then drop (length p) s else s.

End strings.

(** ** Floating point and [strconv]

    A [float64] is a [spec_float] of the Standard Library at precision 53
    and exponent bound 1024, in canonical form; conversions round to
    nearest, ties to even, as Go does.  [int] is 64 bits wide. *)

Module f64.

Definition prec : Z := 53.
Definition emax : Z := 1024.

(** The [float64] nearest to [num / den] ([num >= 0], [den > 0]), with
    the sign [neg]: the quotient is taken with enough bits and the
    position of the remainder given to the library's rounding. *)
Definition of_ratio (neg : bool) (num den : Z) : spec_float :=
  let k := Zdigits2 num - Zdigits2 den in
  let ex := Z.max (k - 56) (emin prec emax) in
  let num' := if ex <? 0 then num * 2 ^ (- ex) else num in
  let den' := if ex <? 0 then den else den * 2 ^ ex in
  let q := num' / den' in
  let r := num' mod den' in
  let loc := if r =? 0 then loc_Exact else loc_Inexact (2 * r ?= den') in
  binary_round_aux prec emax neg q ex loc.

(** [float64(n)] for an integer [n]. *)
Definition of_int (n : Z) : spec_float :=
  binary_normalize prec emax n 0 false.

(** The [float64] nearest to [m * 10^e]: a decimal constant of the
    program, as [12345.678] is [of_decimal 12345678 (-3)]. *)
Definition of_decimal (m e : Z) : spec_float :=
  if 0 <=? e then of_ratio (m <? 0) (Z.abs m * 10 ^ e) 1
  else of_ratio (m <? 0) (Z.abs m) (10 ^ (- e)).

Definition is_inf (f : spec_float) : bool :=
  match f with S754_infinity _ => true | _ => false end.

End f64.

Module strconv.

Definition is_digit (c : rune) : bool := (48 <=? c) && (c <=? 57).

Definition is_hex_letter (c : rune) : bool :=
  ((97 <=? c) && (c <=? 102)) || ((65 <=? c) && (c <=? 70)).

(** [lower(c) - 'a' + 10] for a hexadecimal letter. *)
Definition hex_letter_val (c : rune) : Z :=
  if 97 <=? c then c - 97 + 10 else c - 65 + 10.

Fixpoint digits_val (ds : gostring) (acc : Z) : option Z :=
  match ds with
  | [] => Some acc
  | c :: ds' => if is_digit c then digits_val ds' (acc * 10 + (c - 48)) else None
  end.

(** [strconv.Atoi]: an optional sign and decimal digits, within range. *)
Definition Atoi (s : gostring) : option Z :=
  let '(neg, ds) :=
    match s with
    | c :: t => if c =? 45 then (true, t) else if c =? 43 then (false, t) else (false, s)
    | [] => (false, s)
    end in
  match ds with
  | [] => None
  | _ :: _ =>
    match digits_val ds 0 with
    | None => None
    | Some n =>
      let v := if neg then - n else n in
      if (- 2 ^ 63 <=? v) && (v <=? 2 ^ 63 - 1) then Some v else None
    end
  end.

Fixpoint utoa (fuel : nat) (n : Z) (acc : gostring) : gostring :=
  match fuel with
  | O => acc
  | S fuel' =>
    if n <? 10 then (48 + n) :: acc
    else utoa fuel' (n / 10) ((48 + n mod 10) :: acc)
  end.

(** The decimal digits of [n >= 0]. *)
Definition FormatUint (n : Z) : gostring :=
  utoa (S (Z.to_nat (Z.log2 n))) n [].

(** [strconv.Itoa]. *)
Definition Itoa (n : Z) : gostring :=
  if n <? 0 then 45 :: FormatUint (- n) else FormatUint n.

(** *** [strconv.ParseFloat(s, 64)] *)

Fixpoint fold_prefix_len (s pat : gostring) : nat :=
  match s, pat with
  | c :: s', p :: pat' =>
    if (c =? p) || ((65 <=? c) && (c <=? 90) && (c + 32 =? p))
    then S (fold_prefix_len s' pat') else O
  | _, _ => O
  end.

(** [special]: the value and the number of characters read. *)
Definition special (s : gostring) : option (spec_float * nat) :=
  let infinity := [105; 110; 102; 105; 110; 105; 116; 121] in
  let nan := [110; 97; 110] in
  let inf_of (neg : bool) (nsign : nat) (t : gostring) :=
    let n := fold_prefix_len t infinity in
    let n := if (3 <? n)%nat && (n <? 8)%nat then 3%nat else n in
    if (n =? 3)%nat || (n =? 8)%nat
    then Some (S754_infinity neg, (nsign + n)%nat) else None in
  match s with
  | [] => None
  | c :: t =>
    if c =? 43 then inf_of false 1%nat t
    else if c =? 45 then inf_of true 1%nat t
    else if (c =? 105) || (c =? 73) then inf_of false 0%nat s
    else if (c =? 110) || (c =? 78) then
      if (fold_prefix_len s nan =? 3)%nat then Some (S754_nan, 3%nat) else None
    else None
  end.

(** The state of the digit loop of [readFloat]; [mant] keeps every
    digit (the source keeps 19 and a flag, and rounds as if it had all). *)
Record digits_state :=
  { mant : Z; nd : Z; dp : Z; sawdot : bool; sawdigits : bool; underscores : bool }.

Fixpoint read_digits (hex : bool) (s : gostring) (st : digits_state)
  : digits_state * gostring :=
  match s with
  | [] => (st, s)
  | c :: s' =>
    if c =? 95 then
      read_digits hex s'
        {| mant := mant st; nd := nd st; dp := dp st; sawdot := sawdot st;
           sawdigits := sawdigits st; underscores := true |}
    else if c =? 46 then
      if sawdot st then (st, s)
      else read_digits hex s'
        {| mant := mant st; nd := nd st; dp := nd st; sawdot := true;
           sawdigits := sawdigits st; underscores := underscores st |}
    else if is_digit c then
      if (c =? 48) && (nd st =? 0) then
        read_digits hex s'
          {| mant := mant st; nd := nd st; dp := dp st - 1; sawdot := sawdot st;
             sawdigits := true; underscores := underscores st |}
      else
        read_digits hex s'
          {| mant := mant st * (if hex then 16 else 10) + (c - 48);
             nd := nd st + 1; dp := dp st; sawdot := sawdot st;
             sawdigits := true; underscores := underscores st |}
    else if hex && is_hex_letter c then
      read_digits hex s'
        {| mant := mant st * 16 + hex_letter_val c;
           nd := nd st + 1; dp := dp st; sawdot := sawdot st;
           sawdigits := true; underscores := underscores st |}
    else (st, s)
  end.

(** The exponent digits: [e] stops growing at 10000. *)
Fixpoint read_exp (s : gostring) (e : Z) (us : bool) : Z * bool * gostring :=
  match s with
  | [] => (e, us, s)
  | c :: s' =>
    if c =? 95 then read_exp s' e true
    else if is_digit c then
      read_exp s' (if e <? 10000 then e * 10 + (c - 48) else e) us
    else (e, us, s)
  end.

(** [underscoreOK] after the sign and the base prefix; [i] is the kind
    of the previous character: ['0'] digit, ['_'], ['!'] other, ['^'] start. *)
Fixpoint underscore_scan (hex : bool) (s : gostring) (i : rune) : bool :=
  match s with
  | [] => negb (i =? 95)
  | c :: s' =>
    if is_digit c || (hex && is_hex_letter c) then underscore_scan hex s' 48
    else if c =? 95 then
      if negb (i =? 48) then false else underscore_scan hex s' 95
    else if i =? 95 then false
    else underscore_scan hex s' 33
  end.

Definition underscoreOK (s : gostring) : bool :=
  let s := match s with
           | c :: t => if (c =? 45) || (c =? 43) then t else s
           | [] => s
           end in
  match s with
  | c0 :: c1 :: t =>
    if (c0 =? 48) && ((c1 =? 98) || (c1 =? 66) || (c1 =? 111) || (c1 =? 79)
                      || (c1 =? 120) || (c1 =? 88))
    then underscore_scan ((c1 =? 120) || (c1 =? 88)) t 48
    else underscore_scan false s 94
  | _ => underscore_scan false s 94
  end.

(** [readFloat]: sign, mantissa, base, exponent of the base, and what
    is left of the input. *)
Definition readFloat (s : gostring) : option (bool * Z * bool * Z * gostring) :=
  match s with
  | [] => None
  | c :: t =>
    let '(neg, s1) :=
      if c =? 43 then (false, t) else if c =? 45 then (true, t) else (false, s) in
    let '(hex, s2) :=
      match s1 with
      | c0 :: c1 :: (_ :: _) as t2 =>
        if (c0 =? 48) && ((c1 =? 120) || (c1 =? 88)) then (true, t2) else (false, s1)
      | _ => (false, s1)
      end in
    let '(st, s3) :=
      read_digits hex s2
        {| mant := 0; nd := 0; dp := 0; sawdot := false; sawdigits := false;
           underscores := false |} in
    if negb (sawdigits st) then None
    else
      let dp0 := if sawdot st then dp st else nd st in
      let dp1 := if hex then dp0 * 4 else dp0 in
      let nd1 := if hex then nd st * 4 else nd st in
      let finish (dp2 : Z) (us : bool) (rest : gostring) :=
        let exp := if mant st =? 0 then 0 else dp2 - nd1 in
        let consumed := take (length s - length rest) s in
        if us && negb (underscoreOK consumed) then None
        else Some (neg, mant st, hex, exp, rest) in
      match s3 with
      | c :: s4 =>
        if if hex then (c =? 112) || (c =? 80) else (c =? 101) || (c =? 69) then
          match s4 with
          | [] => None
          | c' :: s5 =>
            let '(esign, s6) :=
              if c' =? 43 then (1, s5) else if c' =? 45 then (-1, s5) else (1, s4) in
            match s6 with
            | d :: _ =>
              if is_digit d then
                let '(e, us, rest) := read_exp s6 0 (underscores st) in
                finish (dp1 + e * esign) us rest
              else None
            | [] => None
            end
          end
        else if hex then None
        else finish dp1 (underscores st) s3
      | [] => if hex then None else finish dp1 (underscores st) s3
      end
  end.

(** [strconv.ParseFloat(s, 64)]: [None] for a syntax error or a value
    out of range, else the nearest [float64]. *)
Definition ParseFloat (s : gostring) : option spec_float :=
  match special s with
  | Some (f, n) => if (n =? length s)%nat then Some f else None
  | None =>
    match readFloat s with
    | None => None
    | Some (neg, m, hex, exp, rest) =>
      match rest with
      | _ :: _ => None
      | [] =>
        let b := if hex then 2 else 10 in
        let f := if 0 <=? exp then f64.of_ratio neg (m * b ^ exp) 1
                 else f64.of_ratio neg m (b ^ (- exp)) in
        if f64.is_inf f then None else Some f
      end
    end
  end.

End strconv.

Module fmt.

Fixpoint zeros (n : nat) : gostring :=
  match n with O => [] | S n' => 48 :: zeros n' end.

(** [strconv.FormatFloat(f, 'f', p, 64)] shown with the sign rules of
    [fmt] for [%f]: the exact value rounded to [p] decimals, ties to
    even. *)
Definition FormatFixed (p : Z) (f : spec_float) : gostring :=
  match f with
  | S754_nan => [78; 97; 78]
  | S754_infinity s => (if s then 45 else 43) :: [73; 110; 102]
  | _ =>
    let '(s, m, e) :=
      match f with
      | S754_finite s m e => (s, Z.pos m, e)
      | S754_zero s => (s, 0, 0)
      | _ => (false, 0, 0)
      end in
    let num := if e <? 0 then m * 10 ^ p else m * 2 ^ e * 10 ^ p in
    let den := if e <? 0 then 2 ^ (- e) else 1 in
    let q := num / den in
    let r := num mod den in
    let q := if (den <? 2 * r) || ((2 * r =? den) && Z.odd q) then q + 1 else q in
    let ds := strconv.FormatUint q in
    let np := Z.to_nat p in
    let ds := zeros (S np - length ds) ++ ds in
    let ip := take (length ds - np) ds in
    let fp := drop (length ds - np) ds in
    (if s then [45] else []) ++ ip ++ (if (0 <? np)%nat then 46 :: fp else [])
  end.

(** Whether [fmt] reads the digits of [p] as a precision: [parsenum]
    gives up once the number read so far exceeds [1e6], and a ['-']
    is no digit. *)
Definition precision_ok (p : Z) : bool :=
  (0 <=? p) && (p / 10 <=? 1000000).

End fmt.

(** ** Values of type [any]

    What an argument bag can hold.  A struct is the list of its fields in
    declaration order, each with its name, whether the name is exported,
    and its value (embedded fields are not modelled).  [VOther] is a value
    of any other dynamic type (bool, slice, map of another type, ...),
    with the texts [%T] and [%v] give for it. *)

Record Time := { unixNano : Z; zoneOffset : Z; zoneName : gostring }.

Inductive value :=
| VNil
| VInt (n : Z)
| VInt64 (n : Z)
| VFloat32 (f : spec_float)
| VFloat64 (f : spec_float)
| VString (s : gostring)
| VMap (m : list (gostring * value))
| VStruct (fs : list (gostring * bool * value))
| VPtr (p : option value)
| VTime (t : Time)
| VOther (typeName shown : gostring).

Abbreviation args_bag := (list (gostring * value)) (only parsing).

(** [m[key]] with the comma-ok form. *)
Fixpoint map_lookup (m : list (gostring * value)) (key : gostring) : option value :=
  match m with
  | [] => None
  | (k, v) :: m' => if string_eqb k key then Some v else map_lookup m' key
  end.

(** ** Errors and outcomes *)

Inductive error :=
| EEmptyExpression
| EEmptyPlaceholder
| EEmptyFormatterSegment
| EEmptyFormatterNameIn (seg : gostring)
| EInvalidConditional (expr : gostring)
| EInvalidCondition (condPart : gostring)
| EValueNotFound (path : gostring)
| EUnknownFormatter (name : gostring)
| ENumberCannotParse (s : gostring)
| ENumberBadType (v : value)
| ENumberInvalidPrecision (precision : gostring)
| ECurrencyCannotParse (v : value)
| ECurrencyBadType (v : value)
| ETimeParse (s : gostring)
| ENotATime (v : value)
| EUnsupportedStringOp (op : gostring)
| EUnsupportedCompareType (v : value)
| EParseFloat (s : gostring)
| EUnknownOp (op : gostring)
| EExtraClosing (pos : Z)
| EUnclosed (pos : Z)
| EEmptyPath
| EEmptyFormatterName
| EInvalidPrecisionLint (arg : gostring)
| EUnknownCondOp (op : gostring)
| EEmptyBranch
| ECustom (msg : gostring).

Inductive panic :=
| PUnexportedField (name : gostring)
| PNilDereference.

Inductive outcome (A : Type) :=
| Done (a : A)
| Panic (p : panic)
| OutOfFuel.
Arguments Done {A} a.
Arguments Panic {A} p.
Arguments OutOfFuel {A}.

Definition obind {A B} (o : outcome A) (k : A -> outcome B) : outcome B :=
  match o with
  | Done a => k a
  | Panic p => Panic p
  | OutOfFuel => OutOfFuel
  end.

Notation "'let*' x ':=' o 'in' k" := (obind o (fun x => k))
  (at level 10, x pattern, o at level 100, k at level 200).

(** ** The AST *)

Record Formatter := { Name : gostring; Arg : gostring }.

Record Conditional :=
  { Op : gostring; TestValue : gostring; TrueExpr : gostring; FalseExpr : gostring }.

Record PlaceholderNode :=
  { Path : gostring; Formatters : list Formatter; Cond : option Conditional }.

Inductive Node :=
| TextNode (Text : gostring)
| Placeholder (p : PlaceholderNode).

Abbreviation TemplateAST := (list Node) (only parsing).

(** ** The placeholder parser *)

Definition nth_str (l : list gostring) (i : nat) : gostring := nth i l [].

(** [parseFormatterSegment]: ["number:2"] gives [("number", "2")]. *)
Definition parseFormatterSegment (seg : gostring) : gostring * gostring :=
  let ff := strings.SplitN2 seg 58 in
  let name := strings.TrimSpace (nth_str ff 0) in
  let arg := if (1 <? length ff)%nat then strings.TrimSpace (nth_str ff 1) else [] in
  (name, arg).

(** [parseConditional]: ["eq:0?A:B"]. *)
Definition parseConditional (expr : gostring) : option Conditional * option error :=
  let q := strings.SplitN2 expr 63 in
  if negb (length q =? 2)%nat then (None, Some (EInvalidConditional expr))
  else
    let condPart := nth_str q 0 in
    let trueFalse := nth_str q 1 in
    let tf := strings.SplitN2 trueFalse 58 in
    if negb (length tf =? 2)%nat then (None, Some (EInvalidConditional expr))
    else
      let condKV := strings.SplitN2 condPart 58 in
      if negb (length condKV =? 2)%nat then (None, Some (EInvalidCondition condPart))
      else
        (Some {| Op := strings.TrimSpace (nth_str condKV 0);
                 TestValue := strings.TrimSpace (nth_str condKV 1);
                 TrueExpr := strings.TrimSpace (nth_str tf 0);
                 FalseExpr := strings.TrimSpace (nth_str tf 1) |}, None).

(** The loop [for i := 1; i < len(parts); i++] of [parsePlaceholder], on
    the segments still to read and the node built so far. *)
Fixpoint parse_segments (segs : list gostring) (ph : PlaceholderNode)
  : option PlaceholderNode * option error :=
  match segs with
  | [] => (Some ph, None)
  | part :: rest =>
    let seg := strings.TrimSpace part in
    if string_eqb seg [] then (None, Some EEmptyFormatterSegment)
    else if strings.Contains seg 63 then
      match parseConditional seg with
      | (_, Some err) => (None, Some err)
      | (cond, None) =>
        parse_segments rest
          {| Path := Path ph; Formatters := Formatters ph; Cond := cond |}
      end
    else
      let '(name, arg) := parseFormatterSegment seg in
      if string_eqb name [] then (None, Some (EEmptyFormatterNameIn seg))
      else
        parse_segments rest
          {| Path := Path ph;
             Formatters := Formatters ph ++ [{| Name := name; Arg := arg |}];
             Cond := Cond ph |}
  end.

(** [parsePlaceholder]: the expression inside [{ ... }]. *)
Definition parsePlaceholder (expr : gostring) : option PlaceholderNode * option error :=
  let expr := strings.TrimSpace expr in
  if string_eqb expr [] then (None, Some EEmptyExpression)
  else
    let parts := strings.Split expr 124 in
    if (length parts =? 0)%nat then (None, Some EEmptyPlaceholder)
    else
      parse_segments (tl parts)
        {| Path := strings.TrimSpace (nth_str parts 0); Formatters := []; Cond := None |}.

(** ** The template parser *)

Definition rune_at (runes : gostring) (i : nat) : rune := nth i runes 0.

(** [runes[lo:hi]]. *)
Definition slice (runes : gostring) (lo hi : nat) : gostring :=
  take (hi - lo) (drop lo runes).

(** The inner loop [for j < n && depth > 0]: [rest] is [runes[j:]]; gives
    the final [depth] and [j]. *)
Fixpoint scan_braces (rest : gostring) (depth : Z) (j : nat) : Z * nat :=
  match rest with
  | [] => (depth, j)
  | r :: rest' =>
    if 0 <? depth then
      let depth' := if r =? 123 then depth + 1
                    else if r =? 125 then depth - 1
                    else depth in
      scan_braces rest' depth' (S j)
    else (depth, j)
  end.

(** [if buf.Len() > 0 { nodes = append(nodes, &TextNode{...}); buf.Reset() }] *)
Definition flush (nodes : TemplateAST) (buf : gostring) : TemplateAST * gostring :=
  match buf with
  | [] => (nodes, buf)
  | _ :: _ => (nodes ++ [TextNode buf], [])
  end.

(** The loop [for i < n] of [ParseTemplate]; one unit of [fuel] per
    iteration.  [parsePlaceholder] returns a node exactly when it returns
    no error ([parsePlaceholder_shape] below), so the last case of the
    match on its result is never taken. *)
Fixpoint parse_loop (fuel : nat) (runes : gostring) (i : nat)
    (nodes : TemplateAST) (buf : gostring) : outcome TemplateAST :=
  if (i <? length runes)%nat then
    match fuel with
    | O => OutOfFuel
    | S fuel' =>
      if negb (rune_at runes i =? 123) then
        parse_loop fuel' runes (S i) nodes (buf ++ [rune_at runes i])
      else
        let '(nodes, buf) := flush nodes buf in
        let start := i in
        let '(depth, j) := scan_braces (drop (S i) runes) 1 (S i) in
        if negb (depth =? 0) then
          parse_loop fuel' runes (S start) nodes (buf ++ [rune_at runes start])
        else
          let raw := slice runes (S start) (j - 1) in
          match parsePlaceholder raw with
          | (_, Some _) =>
            parse_loop fuel' runes j nodes (buf ++ [123] ++ raw ++ [125])
          | (Some ph, None) =>
            let '(nodes, buf) := flush nodes buf in
            parse_loop fuel' runes j (nodes ++ [Placeholder ph]) buf
          | (None, None) => parse_loop fuel' runes j nodes buf
          end
    end
  else Done (fst (flush nodes buf)).

(** [ParseTemplate]: the error returned is always [nil]. *)
Definition ParseTemplate (tpl : gostring) : outcome (TemplateAST * option error) :=
  let* nodes := parse_loop (length tpl) tpl 0%nat [] [] in
  Done (nodes, None).

(** ** What the model takes from the Go runtime

    The library functions whose tables or algorithms are not reproduced
    here.  Every theorem below holds whatever they compute. *)

Class GoLib := {
  (** [strings.ToUpper], [strings.ToLower], [strings.Title] *)
  ToUpper : gostring -> gostring;
  ToLower : gostring -> gostring;
  Title : gostring -> gostring;
  (** whether two distinct code points, the larger one not ASCII, are in
      the same orbit of [unicode.SimpleFold] *)
  SimpleFoldEq : rune -> rune -> bool;
  (** [fmt.Sprint] of a float, a map, a struct, a pointer or a time *)
  SprintOther : value -> gostring;
  (** [fmt.Sprintf("%." + strconv.Itoa(p) + "f", f)] when [fmt] cannot
      read [p] as a precision: a text that reports the bad verb *)
  SprintfBadPrecision : Z -> spec_float -> gostring;
  (** [t.Format(layout)] and [time.Parse(time.RFC3339, s)] *)
  TimeFormat : Time -> gostring -> gostring;
  TimeParse : gostring -> option Time
}.

Abbreviation FormatterFunc := (value -> gostring -> value * option error) (only parsing).

Section Engine.

Context {L : GoLib}.

(** *** The value resolver *)

Definition fold_eq_rune (sr tr : rune) : bool :=
  if sr =? tr then true
  else
    let lo := Z.min sr tr in
    let hi := Z.max sr tr in
    if hi <? 128 then (65 <=? lo) && (lo <=? 90) && (hi =? lo + 32)
    else SimpleFoldEq lo hi.

(** [strings.EqualFold]. *)
Fixpoint EqualFold (s t : gostring) : bool :=
  match s, t with
  | [], [] => true
  | a :: s', b :: t' => fold_eq_rune a b && EqualFold s' t'
  | _, _ => false
  end.

(** [reflect.Value.FieldByNameFunc] on a struct without embedded
    fields: the one field whose name satisfies [matchf]; several
    matching fields cancel each other. *)
Definition FieldByNameFunc (fs : list (gostring * bool * value))
    (matchf : gostring -> bool) : option (gostring * bool * value) :=
  match List.filter (fun f => matchf (fst (fst f))) fs with
  | [f] => Some f
  | _ => None
  end.

(** A [time.Time] is a struct of three unexported fields. *)
Definition time_fields : list (gostring * bool * value) :=
  [(gs "wall", false, VNil); (gs "ext", false, VNil); (gs "loc", false, VNil)].

(** The body of the loop of [getValueByPath]: the next [current], or
    [None] for [return nil, false].  [f.Interface()] panics on a field
    that is not exported. *)
Definition resolve_segment (current : value) (seg : gostring) : outcome (option value) :=
  match current with
  | VMap c => Done (map_lookup c seg)
  | _ =>
    let r := match current with
             | VPtr p => p
             | VNil => None
             | c => Some c
             end in
    let fields := match r with
                  | Some (VStruct fs) => Some fs
                  | Some (VTime _) => Some time_fields
                  | _ => None
                  end in
    match fields with
    | None => Done None
    | Some fs =>
      match FieldByNameFunc fs (fun name => EqualFold name seg) with
      | None => Done None
      | Some (name, exported, v) =>
        if exported then Done (Some v) else Panic (PUnexportedField name)
      end
    end
  end.

Fixpoint resolve_loop (segs : list gostring) (current : value) : outcome (value * bool) :=
  match segs with
  | [] => Done (current, true)
  | seg :: rest =>
    let* o := resolve_segment current seg in
    match o with
    | None => Done (VNil, false)
    | Some v => resolve_loop rest v
    end
  end.

(** [getValueByPath] (the call of [log.Println] writes to the log only). *)
Definition getValueByPath (args : args_bag) (path : gostring) : outcome (value * bool) :=
  resolve_loop (strings.Split path 46) (VMap args).

(** *** The built-in formatters *)

(** [fmt.Sprint(v)]. *)
Definition Sprint (v : value) : gostring :=
  match v with
  | VNil => gs "<nil>"
  | VInt n | VInt64 n => strconv.Itoa n
  | VString s => s
  | VOther _ shown => shown
  | _ => SprintOther v
  end.

(** [fmt.Sprintf("%." + strconv.Itoa(p) + "f", f)]. *)
Definition Sprintf_prec_f (p : Z) (f : spec_float) : gostring :=
  if fmt.precision_ok p then fmt.FormatFixed p f else SprintfBadPrecision p f.

Fixpoint sep_loop (rs : gostring) (i len : Z) : gostring :=
  match rs with
  | [] => []
  | c :: rs' =>
    (if negb (i =? 0) && ((len - i) mod 3 =? 0) then [44] else [])
      ++ c :: sep_loop rs' (i + utf8.utf8_len c) len
  end.

Definition addThousandsSep (s : gostring) : gostring :=
  let neg := strings.HasPrefix s [45] in
  let s := if neg then drop 1 s else s in
  let parts := strings.Split s 46 in
  let intPart := nth_str parts 0 in
  let buf := sep_loop intPart 0 (utf8.byte_len intPart) in
  let buf := if (1 <? length parts)%nat then buf ++ [46] ++ nth_str parts 1 else buf in
  if neg then 45 :: buf else buf.

Definition formatNumber (v : value) (precision : gostring) : gostring * option error :=
  let parsed : spec_float + error :=
    match v with
    | VInt n => inl (f64.of_int n)
    | VInt64 n => inl (f64.of_int n)
    | VFloat32 n => inl n
    | VFloat64 n => inl n
    | VString n =>
      let n := strings.TrimSpace n in
      let n := strings.RemoveAll n 44 in
      match strconv.ParseFloat n with
      | None => inr (ENumberCannotParse n)
      | Some ff => inl ff
      end
    | _ => inr (ENumberBadType v)
    end in
  match parsed with
  | inr err => ([], Some err)
  | inl f =>
    let p := if string_eqb precision [] then Some 0 else strconv.Atoi precision in
    match p with
    | None => ([], Some (ENumberInvalidPrecision precision))
    | Some p => (addThousandsSep (Sprintf_prec_f p f), None)
    end
  end.

Definition formatCurrency (v : value) (arg : gostring) : gostring * option error :=
  let symbol := if string_eqb arg [] then [36] else arg in
  let parsed : spec_float + error :=
    match v with
    | VInt n => inl (f64.of_int n)
    | VInt64 n => inl (f64.of_int n)
    | VFloat32 n => inl n
    | VFloat64 n => inl n
    | VString n =>
      let n := strings.TrimSpace n in
      let n := strings.TrimPrefix n [36] in
      let n := strings.TrimPrefix n [165] in
      let n := strings.TrimPrefix n [8364] in
      let n := strings.TrimPrefix n [163] in
      let n := strings.TrimPrefix n symbol in
      let n := strings.RemoveAll n 44 in
      match strconv.ParseFloat n with
      | None => inr (ECurrencyCannotParse v)
      | Some ff => inl ff
      end
    | _ => inr (ECurrencyBadType v)
    end in
  match parsed with
  | inr err => ([], Some err)
  | inl f =>
    let s := Sprintf_prec_f 2 f in
    let s := addThousandsSep s in
    (symbol ++ s, None)
  end.

(** [formatDate]; a nil pointer is taken to be of another type than
    [*time.Time]. *)
Definition formatDate (v : value) (layout : gostring) : gostring * option error :=
  let layout := if string_eqb layout [] then gs "2006-01-02" else layout in
  match v with
  | VTime t => (TimeFormat t layout, None)
  | VPtr (Some (VTime t)) => (TimeFormat t layout, None)
  | VString t =>
    match TimeParse t with
    | None => ([], Some (ETimeParse t))
    | Some t' => (TimeFormat t' layout, None)
    end
  | _ => ([], Some (ENotATime v))
  end.

(** A [(string, error)] returned as [(any, error)]. *)
Definition as_any (r : gostring * option error) : value * option error :=
  (VString (fst r), snd r).

(** *** The formatter registry *)

Definition RegisterFormatter (name : gostring) (f : FormatterFunc)
    (formatterRegistry : gmap (list Z) FormatterFunc) : gmap (list Z) FormatterFunc :=
  <[name := f]> formatterRegistry.

(** The registry after [init]. *)
Definition init_registry : gmap (list Z) FormatterFunc :=
  RegisterFormatter (gs "date") (fun v arg => as_any (formatDate v arg))
  (RegisterFormatter (gs "currency") (fun v arg => as_any (formatCurrency v arg))
  (RegisterFormatter (gs "number") (fun v arg => as_any (formatNumber v arg))
  (RegisterFormatter (gs "title") (fun v arg => (VString (Title (Sprint v)), None))
  (RegisterFormatter (gs "lower") (fun v arg => (VString (ToLower (Sprint v)), None))
  (RegisterFormatter (gs "upper") (fun v arg => (VString (ToUpper (Sprint v)), None))
     ∅))))).

Definition applyRegisteredFormatter (formatterRegistry : gmap (list Z) FormatterFunc)
    (v : value) (name arg : gostring) : value * option error :=
  match formatterRegistry !! name with
  | None => (VNil, Some (EUnknownFormatter name))
  | Some f => f v arg
  end.

(** *** Comparison *)

Definition compareNumbers (v : value) (op test : gostring) : bool * option error :=
  let lv := match v with
            | VInt t => f64.of_int t
            | VInt64 t => f64.of_int t
            | VFloat64 t => t
            | VFloat32 t => t
            | _ => S754_zero false
            end in
  match strconv.ParseFloat test with
  | None => (false, Some (EParseFloat test))
  | Some rv =>
    if string_eqb op (gs "eq") then (SFeqb lv rv, None)
    else if string_eqb op (gs "gt") then (SFltb rv lv, None)
    else if string_eqb op (gs "lt") then (SFltb lv rv, None)
    else (false, Some (EUnknownOp op))
  end.

Definition compareValues (v : value) (op test : gostring) : bool * option error :=
  match v with
  | VInt _ | VInt64 _ | VFloat64 _ | VFloat32 _ => compareNumbers v op test
  | VString vv =>
    if string_eqb op (gs "eq") then (string_eqb vv test, None)
    else (false, Some (EUnsupportedStringOp op))
  | _ => (false, Some (EUnsupportedCompareType v))
  end.

(** *** Evaluation *)

Definition render_fn : Type :=
  gmap (list Z) (list Node) -> gostring -> args_bag
  -> outcome (gostring * option error * gmap (list Z) (list Node)).

(** The loop over [p.Formatters] of [PlaceholderNode.Eval]. *)
Fixpoint apply_formatters (formatterRegistry : gmap (list Z) FormatterFunc)
    (fs : list Formatter) (v : value) : value * option error :=
  match fs with
  | [] => (v, None)
  | f :: fs' =>
    match applyRegisteredFormatter formatterRegistry v (Name f) (Arg f) with
    | (v', Some err) => (v', Some err)
    | (v', None) => apply_formatters formatterRegistry fs' v'
    end
  end.

(** [PlaceholderNode.Eval]; [render] stands for [RenderTemplate] and
    [astCache] is the cache when the call starts. *)
Definition PlaceholderNode_Eval (render : render_fn)
    (formatterRegistry : gmap (list Z) FormatterFunc)
    (astCache : gmap (list Z) (list Node)) (p : PlaceholderNode) (args : args_bag)
  : outcome (gostring * option error * gmap (list Z) (list Node)) :=
  let* (v, ok) := getValueByPath args (Path p) in
  if negb ok then Done ([], Some (EValueNotFound (Path p)), astCache)
  else
    match apply_formatters formatterRegistry (Formatters p) v with
    | (_, Some err) => Done ([], Some err, astCache)
    | (v, None) =>
      match Cond p with
      | Some cond =>
        match compareValues v (Op cond) (TestValue cond) with
        | (_, Some err) => Done ([], Some err, astCache)
        | (ok, None) =>
          if ok then render astCache (TrueExpr cond) args
          else render astCache (FalseExpr cond) args
        end
      | None => Done (Sprint v, None, astCache)
      end
    end.

(** [Node.Eval]. *)
Definition Node_Eval (render : render_fn)
    (formatterRegistry : gmap (list Z) FormatterFunc)
    (astCache : gmap (list Z) (list Node)) (node : Node) (args : args_bag)
  : outcome (gostring * option error * gmap (list Z) (list Node)) :=
  match node with
  | TextNode t => Done (t, None, astCache)
  | Placeholder p => PlaceholderNode_Eval render formatterRegistry astCache p args
  end.

(** The loop of [TemplateAST.Eval], [buf] being the output so far. *)
Fixpoint eval_nodes (render : render_fn)
    (formatterRegistry : gmap (list Z) FormatterFunc)
    (astCache : gmap (list Z) (list Node)) (nodes : list Node) (args : args_bag)
    (buf : gostring)
  : outcome (gostring * option error * gmap (list Z) (list Node)) :=
  match nodes with
  | [] => Done (buf, None, astCache)
  | node :: rest =>
    let* (s, err, astCache) := Node_Eval render formatterRegistry astCache node args in
    match err with
    | Some e => Done ([], Some e, astCache)
    | None => eval_nodes render formatterRegistry astCache rest args (buf ++ s)
    end
  end.

Definition TemplateAST_Eval (render : render_fn)
    (formatterRegistry : gmap (list Z) FormatterFunc)
    (astCache : gmap (list Z) (list Node)) (t : list Node) (args : args_bag)
  : outcome (gostring * option error * gmap (list Z) (list Node)) :=
  eval_nodes render formatterRegistry astCache t args [].

(** [RenderTemplate]; [fuel] bounds the depth of the calls made for
    the branches of conditionals. *)
Fixpoint RenderTemplate (fuel : nat) (formatterRegistry : gmap (list Z) FormatterFunc)
    (astCache : gmap (list Z) (list Node)) (tpl : gostring) (args : args_bag)
  : outcome (gostring * option error * gmap (list Z) (list Node)) :=
  match fuel with
  | O => OutOfFuel
  | S fuel' =>
    let render := fun c t a => RenderTemplate fuel' formatterRegistry c t a in
    match astCache !! tpl with
    | Some ast => TemplateAST_Eval render formatterRegistry astCache ast args
    | None =>
      let* (ast, err) := ParseTemplate tpl in
      match err with
      | Some e => Done (tpl, Some e, astCache)
      | None =>
        let astCache := <[tpl := ast]> astCache in
        TemplateAST_Eval render formatterRegistry astCache ast args
      end
    end
  end.

(** *** The validator *)

(** The loop of [checkBraces]; [i] is the index of the head of [rs]. *)
Fixpoint checkBraces_loop (rs : gostring) (i depth firstOpen : Z) : option error :=
  match rs with
  | [] =>
    if negb (depth =? 0) && (0 <=? firstOpen) then Some (EUnclosed firstOpen) else None
  | r :: rs' =>
    if r =? 123 then
      checkBraces_loop rs' (i + 1) (depth + 1) (if depth =? 0 then i else firstOpen)
    else if r =? 125 then
      if depth =? 0 then Some (EExtraClosing i)
      else checkBraces_loop rs' (i + 1) (depth - 1) firstOpen
    else checkBraces_loop rs' (i + 1) depth firstOpen
  end.

Definition checkBraces (tpl : gostring) : option error :=
  checkBraces_loop tpl 0 0 (-1).

(** The loop over [ph.Formatters] of [ValidateTemplate]. *)
Fixpoint validate_formatters (formatterRegistry : gmap (list Z) FormatterFunc)
    (fs : list Formatter) : option error :=
  match fs with
  | [] => None
  | f :: fs' =>
    let name := strings.TrimSpace (Name f) in
    if string_eqb name [] then Some EEmptyFormatterName
    else
      match formatterRegistry !! name with
      | None => Some (EUnknownFormatter name)
      | Some _ =>
        if string_eqb name (gs "number") && negb (string_eqb (Arg f) [])
           && negb (bool_decide (is_Some (strconv.Atoi (Arg f))))
        then Some (EInvalidPrecisionLint (Arg f))
        else validate_formatters formatterRegistry fs'
      end
  end.

Definition validate_cond (c : option Conditional) : option error :=
  match c with
  | None => None
  | Some cond =>
    if negb (string_eqb (Op cond) (gs "eq") || string_eqb (Op cond) (gs "gt")
             || string_eqb (Op cond) (gs "lt"))
    then Some (EUnknownCondOp (Op cond))
    else if string_eqb (strings.TrimSpace (TrueExpr cond)) []
            || string_eqb (strings.TrimSpace (FalseExpr cond)) []
    then Some EEmptyBranch
    else None
  end.

(** The loop over the nodes of [ValidateTemplate]. *)
Fixpoint validate_nodes (formatterRegistry : gmap (list Z) FormatterFunc)
    (ast : list Node) : option error :=
  match ast with
  | [] => None
  | TextNode _ :: rest => validate_nodes formatterRegistry rest
  | Placeholder ph :: rest =>
    if string_eqb (strings.TrimSpace (Path ph)) [] then Some EEmptyPath
    else
      match validate_formatters formatterRegistry (Formatters ph) with
      | Some err => Some err
      | None =>
        match validate_cond (Cond ph) with
        | Some err => Some err
        | None => validate_nodes formatterRegistry rest
        end
      end
  end.

Definition ValidateTemplate (formatterRegistry : gmap (list Z) FormatterFunc)
    (tpl : gostring) : outcome (option error) :=
  match checkBraces tpl with
  | Some err => Done (Some err)
  | None =>
    let* (ast, err) := ParseTemplate tpl in
    match err with
    | Some e => Done (Some e)
    | None => Done (validate_nodes formatterRegistry ast)
    end
  end.

(** *** Bundles and locales *)

Record Config :=
  { DefaultLang : gostring; Fallbacks : gmap (list Z) (list (list Z)) }.

Record Bundle :=
  { messages : gmap (list Z) (gmap (list Z) (list Z)); config : Config }.

(** A [Locale]; [bundle] is [None] for the nil pointer. *)
Record Locale := { bundle : option Bundle; langs : list (list Z) }.

Definition New (cfg : Config) : Bundle :=
  {| messages := ∅;
     config := {| DefaultLang := if string_eqb (DefaultLang cfg) [] then gs "en"
                                 else DefaultLang cfg;
                  Fallbacks := Fallbacks cfg |} |}.

Definition RegisterMessages (b : Bundle) (lang : gostring)
    (msgs : gmap (list Z) (list Z)) : Bundle :=
  {| messages := <[lang := msgs ∪ default ∅ (messages b !! lang)]> (messages b);
     config := config b |}.

Definition Bundle_Locale (b : Bundle) (lang : gostring) : Locale :=
  let default_lang := DefaultLang (config b) in
  let chain :=
    if negb (string_eqb lang []) then
      match Fallbacks (config b) !! lang with
      | Some (l :: fb) => l :: fb
      | _ =>
        [lang] ++ (if negb (string_eqb default_lang [])
                      && negb (string_eqb default_lang lang)
                   then [default_lang] else [])
      end
    else [default_lang] in
  {| bundle := Some b; langs := chain |}.

(** The loop [for _, lang := range l.langs] of [Locale.T]. *)
Fixpoint T_loop (fuel : nat) (formatterRegistry : gmap (list Z) FormatterFunc)
    (astCache : gmap (list Z) (list Node)) (b : Bundle) (ls : list (list Z))
    (key : gostring) (args : args_bag)
  : outcome (gostring * gmap (list Z) (list Node)) :=
  match ls with
  | [] => Done (key, astCache)
  | lang :: rest =>
    match messages b !! lang with
    | Some msgs =>
      match msgs !! key with
      | Some text =>
        let* (res, err, astCache) :=
          RenderTemplate fuel formatterRegistry astCache text args in
        match err with
        | Some _ => Done (text, astCache)
        | None => Done (res, astCache)
        end
      | None => T_loop fuel formatterRegistry astCache b rest key args
      end
    | None => T_loop fuel formatterRegistry astCache b rest key args
    end
  end.

(** [Locale.T]. *)
Definition T (fuel : nat) (formatterRegistry : gmap (list Z) FormatterFunc)
    (astCache : gmap (list Z) (list Node)) (l : Locale)
    (key : gostring) (args : args_bag)
  : outcome (gostring * gmap (list Z) (list Node)) :=
  match bundle l with
  | None => Done (key, astCache)
  | Some b => T_loop fuel formatterRegistry astCache b (langs l) key args
  end.

End Engine.

(** ** A runtime to compute with

    An instance of [GoLib], exact on ASCII letters, used where a closed
    term is evaluated; what is stated of these evaluations holds with
    every instance. *)

Definition ascii_upper (s : gostring) : gostring :=
  map (fun r => if (97 <=? r) && (r <=? 122) then r - 32 else r) s.

Definition ascii_lower (s : gostring) : gostring :=
  map (fun r => if (65 <=? r) && (r <=? 90) then r + 32 else r) s.

Definition ascii_lib : GoLib :=
  {| ToUpper := ascii_upper;
     ToLower := ascii_lower;
     Title := fun s => s;
     SimpleFoldEq := fun _ _ => false;
     SprintOther := fun _ => [];
     SprintfBadPrecision := fun _ _ => [];
     TimeFormat := fun _ _ => [];
     TimeParse := fun _ => None |}.

(** ** Predicates of the specification *)

(** No pipe character in a text, in a conditional, in a placeholder node. *)
Definition no_pipe (s : list Z) : Prop := Forall (fun r => r <> 124) s.

Definition no_pipe_cond (c : Conditional) : Prop :=
  no_pipe (Op c) /\ no_pipe (TestValue c) /\ no_pipe (TrueExpr c) /\ no_pipe (FalseExpr c).

Definition no_pipe_node (p : PlaceholderNode) : Prop :=
  no_pipe (Path p)
  /\ Forall (fun f => no_pipe (Name f) /\ no_pipe (Arg f)) (Formatters p)
  /\ (forall c, Cond p = Some c -> no_pipe_cond c).

(** Every placeholder node of a parsed template was accepted by
    [parsePlaceholder]. *)
Definition parsed_node (node : Node) : Prop :=
  match node with
  | TextNode _ => True
  | Placeholder p => exists raw, parsePlaceholder raw = (Some p, None)
  end.

(** No brace in a text. *)
Definition no_brace (s : list Z) : Prop := Forall (fun r => r <> 123 /\ r <> 125) s.

Section EngineSpec.

Context {L : GoLib}.

(** The invariant of [astCache]: an entry is the AST [ParseTemplate]
    gives for its key. *)
Definition cache_wf (astCache : gmap (list Z) (list Node)) : Prop :=
  forall tpl ast, astCache !! tpl = Some ast -> ParseTemplate tpl = Done (ast, None).

(** What a call returns, the cache left aside. *)
Definition result_of {A C : Type} (o : outcome (A * C)) : outcome A :=
  match o with
  | Done (r, _) => Done r
  | Panic p => Panic p
  | OutOfFuel => OutOfFuel
  end.

(** The render of the specification read without its cache: parse the
    text, evaluate the AST, render the chosen branch of a conditional
    the same way. *)
Fixpoint render_uncached (fuel : nat) (formatterRegistry : gmap (list Z) FormatterFunc)
    (tpl : gostring) (args : args_bag) : outcome (gostring * option error) :=
  match fuel with
  | O => OutOfFuel
  | S fuel' =>
    let* (ast, err) := ParseTemplate tpl in
    match err with
    | Some e => Done (tpl, Some e)
    | None =>
      result_of
        (TemplateAST_Eval
           (fun c t a => let* r := render_uncached fuel' formatterRegistry t a in Done (r, c))
           formatterRegistry ∅ ast args)
    end
  end.

(** A cached call and an uncached one end the same way, and the cache
    keeps its invariant. *)
Definition agrees (o1 : outcome (gostring * option error * gmap (list Z) (list Node)))
    (o2 : outcome (gostring * option error)) : Prop :=
  match o1 with
  | Done (r, c) => o2 = Done r /\ cache_wf c
  | Panic p => o2 = Panic p
  | OutOfFuel => o2 = OutOfFuel
  end.

(** The value is one the number formatters take as a number. *)
Definition numeric (v : value) : Prop :=
  match v with
  | VInt _ | VInt64 _ | VFloat32 _ | VFloat64 _ => True
  | _ => False
  end.

End EngineSpec.

(** The literal text of a sequence of nodes, and the sequences made of
    text nodes only. *)
Definition text_of (nodes : list Node) : list Z :=
  flat_map (fun n => match n with TextNode t => t | Placeholder _ => [] end) nodes.

Definition all_text (nodes : list Node) : Prop :=
  Forall (fun n => match n with TextNode _ => True | Placeholder _ => False end) nodes.

(** ** The templates of the examples *)

Definition tpl_items : list Z := gs "{count|eq:0?No items:{count} items}".

Definition ast_items : list Node :=
  [Placeholder
     {| Path := gs "count"; Formatters := [];
        Cond := Some {| Op := gs "eq"; TestValue := gs "0";
                        TrueExpr := gs "No items"; FalseExpr := gs "{count} items" |} |}].

Definition tpl_price : list Z := gs "{p|number:2|currency:¥}".

Definition ast_price : list Node :=
  [Placeholder
     {| Path := gs "p";
        Formatters := [{| Name := gs "number"; Arg := gs "2" |};
                       {| Name := gs "currency"; Arg := gs "¥" |}];
        Cond := None |}].

(** [map[string]any{"p": 12345.678}] *)
Definition args_price : list (list Z * value) :=
  [(gs "p", VFloat64 (f64.of_decimal 12345678 (-3)))].

Definition tpl_missing : list Z := gs "{user.missing}".

Definition ast_missing : list Node :=
  [Placeholder {| Path := gs "user.missing"; Formatters := []; Cond := None |}].

Definition tpl_bogus : list Z := gs "{a|bogus}{missing}".

Definition ast_bogus : list Node :=
  [Placeholder {| Path := gs "a";
                  Formatters := [{| Name := gs "bogus"; Arg := [] |}]; Cond := None |};
   Placeholder {| Path := gs "missing"; Formatters := []; Cond := None |}].

Definition ast_empty_path : list Node :=
  [Placeholder {| Path := []; Formatters := [{| Name := gs "upper"; Arg := [] |}];
                  Cond := None |}].

Definition node_nested_pipe : PlaceholderNode :=
  {| Path := gs "n";
     Formatters := [{| Name := gs "upper}"; Arg := [] |}];
     Cond := Some {| Op := gs "eq"; TestValue := gs "0";
                     TrueExpr := gs "none"; FalseExpr := gs "{x" |} |}.

(** The float a numeric value stands for in [formatNumber]. *)
Definition float_of (v : value) : spec_float :=
  match v with
  | VInt n | VInt64 n => f64.of_int n
  | VFloat32 f | VFloat64 f => f
  | _ => S754_zero false
  end.

(** Every struct reachable in a value has exported fields only. *)
Fixpoint all_exported (v : value) : bool :=
  match v with
  | VMap m =>
    (fix go (m : list (list Z * value)) : bool :=
       match m with
       | [] => true
       | (_, x) :: m' => all_exported x && go m'
       end) m
  | VStruct fs =>
    (fix go (fs : list (list Z * bool * value)) : bool :=
       match fs with
       | [] => true
       | (_, e, x) :: fs' => e && all_exported x && go fs'
       end) fs
  | VPtr (Some x) => all_exported x
  | VTime _ => false
  | _ => true
  end.

(** The bundle of the examples of [Locale.T]. *)
Definition example_bundle : Bundle :=
  RegisterMessages (New {| DefaultLang := []; Fallbacks := ∅ |}) (gs "en")
    (<[gs "hello" := gs "Hi {name}"]> (<[gs "bad" := gs "{x|bogus}"]> ∅)).

(** ** Segments of a placeholder *)

(** The segment is read as a conditional, and the formatter call a
    segment is read as otherwise. *)
Definition is_cond_segment (seg : list Z) : bool :=
  strings.Contains (strings.TrimSpace seg) 63.

Definition formatter_of (seg : list Z) : Formatter :=
  {| Name := fst (parseFormatterSegment (strings.TrimSpace seg));
     Arg := snd (parseFormatterSegment (strings.TrimSpace seg)) |}.

(** The branches of the conditional of a node, when it has one, are
    shorter than [n]. *)
Definition branches_shorter (n : nat) (node : Node) : Prop :=
  match node with
  | TextNode _ => True
  | Placeholder p =>
    forall cond, Cond p = Some cond ->
      (length (TrueExpr cond) < n)%nat /\ (length (FalseExpr cond) < n)%nat
  end.

(** ** Brace balance *)

(** Opening braces minus closing braces. *)
Fixpoint net_depth (s : list Z) : Z :=
  match s with
  | [] => 0
  | r :: s' => (if r =? 123 then 1 else if r =? 125 then -1 else 0) + net_depth s'
  end.

(** No prefix closes more braces than it opens, and the whole text
    closes all of them. *)
Definition balanced (s : list Z) : Prop :=
  (forall n, 0 <= net_depth (take n s)) /\ net_depth s = 0.

(** What [ValidateTemplate] checks of a node. *)
Definition valid_formatter (formatterRegistry : gmap (list Z) FormatterFunc)
    (f : Formatter) : Prop :=
  strings.TrimSpace (Name f) <> []
  /\ is_Some (formatterRegistry !! strings.TrimSpace (Name f))
  /\ (strings.TrimSpace (Name f) = gs "number" -> Arg f <> [] ->
      is_Some (strconv.Atoi (Arg f))).

Definition valid_cond (cond : Conditional) : Prop :=
  (Op cond = gs "eq" \/ Op cond = gs "gt" \/ Op cond = gs "lt")
  /\ strings.TrimSpace (TrueExpr cond) <> []
  /\ strings.TrimSpace (FalseExpr cond) <> [].

Definition valid_node (formatterRegistry : gmap (list Z) FormatterFunc)
    (node : Node) : Prop :=
  match node with
  | TextNode _ => True
  | Placeholder ph =>
    strings.TrimSpace (Path ph) <> []
    /\ Forall (valid_formatter formatterRegistry) (Formatters ph)
    /\ (forall cond, Cond ph = Some cond -> valid_cond cond)
  end.

(** ** Numbers and comparisons *)

(** The characters of a number as [fmt.Sprintf] prints its digits. *)
Definition digits (s : list Z) : Prop :=
  Forall (fun r => strconv.is_digit r = true) s.

Definition is_nan (f : spec_float) : bool :=
  match f with S754_nan => true | _ => false end.

(** Exactly one of three booleans holds. *)
Definition one_of_three (a b c : bool) : Prop :=
  (a = true /\ b = false /\ c = false)
  \/ (a = false /\ b = true /\ c = false)
  \/ (a = false /\ b = false /\ c = true).

(** The six names registered by [init]. *)
Definition builtin_names : list (list Z) :=
  [gs "upper"; gs "lower"; gs "title"; gs "number"; gs "currency"; gs "date"].

(** ** Messages of a bundle *)

(** The message a bundle holds for a key in a language. *)
Definition message_of (b : Bundle) (lang key : list Z) : option (list Z) :=
  match messages b !! lang with
  | Some msgs => msgs !! key
  | None => None
  end.

(** What [Locale.T] makes of a render. *)
Definition rendered_or_text (text : list Z)
    (r : outcome (list Z * option error * gmap (list Z) (list Node)))
  : outcome (list Z * gmap (list Z) (list Node)) :=
  match r with
  | Done (res, None, c) => Done (res, c)
  | Done (_, Some _, c) => Done (text, c)
  | Panic pn => Panic pn
  | OutOfFuel => OutOfFuel
  end.

(** * Properties *)

(** ** Strings *)

Section StringFacts.

Variable P : Z -> Prop.

Lemma trim_left_Forall (s : list Z) : Forall P s -> Forall P (strings.trim_left s).
Proof.
  induction s as [|r s IH]; simpl; intros H; [constructor|].
  destruct (unicode.IsSpace r); [|exact H].
  apply IH. inversion H; assumption.
Qed.

Lemma TrimSpace_Forall (s : list Z) : Forall P s -> Forall P (strings.TrimSpace s).
Proof.
  intros H. unfold strings.TrimSpace.
  apply Forall_rev, trim_left_Forall, Forall_rev, trim_left_Forall, H.
Qed.

Lemma SplitN2_Forall (s : list Z) (sep : Z) :
  Forall P s -> Forall (Forall P) (strings.SplitN2 s sep).
Proof.
  induction s as [|r s IH]; simpl; intros H.
  - repeat constructor.
  - inversion H as [|? ? Hr Hs]; subst.
    destruct (r =? sep).
    + repeat constructor. exact Hs.
    + specialize (IH Hs). destruct (strings.SplitN2 s sep) as [|p ps].
      * repeat constructor. exact Hr.
      * inversion IH; subst. constructor; [constructor|]; assumption.
Qed.

Lemma nth_str_Forall (l : list (list Z)) (i : nat) :
  Forall (Forall P) l -> Forall P (nth_str l i).
Proof.
  unfold nth_str. revert i. induction l as [|x l IH]; intros i H.
  - destruct i; constructor.
  - inversion H; subst. destruct i; simpl; auto.
Qed.

End StringFacts.

Lemma Split_pieces (s : list Z) (sep : Z) :
  Forall (Forall (fun r => r <> sep)) (strings.Split s sep).
Proof.
  induction s as [|r s IH]; simpl.
  - repeat constructor.
  - destruct (Z.eqb_spec r sep) as [->|Hne].
    + constructor; [constructor | exact IH].
    + destruct (strings.Split s sep) as [|p ps].
      * repeat constructor. exact Hne.
      * inversion IH; subst. constructor; [constructor|]; assumption.
Qed.

Lemma Split_nonempty (s : list Z) (sep : Z) : strings.Split s sep <> [].
Proof.
  destruct s as [|r s]; simpl; [discriminate|].
  destruct (r =? sep); [discriminate|].
  destruct (strings.Split s sep); discriminate.
Qed.

Lemma string_eqb_eq (a b : list Z) : string_eqb a b = true <-> a = b.
Proof. unfold string_eqb. apply bool_decide_eq_true. Qed.

Lemma string_eqb_neq (a b : list Z) : string_eqb a b = false <-> a <> b.
Proof. unfold string_eqb. apply bool_decide_eq_false. Qed.

(** ** The placeholder parser splits on every pipe *)

Lemma parseConditional_no_pipe (expr : list Z) (c : Conditional) :
  no_pipe expr -> parseConditional expr = (Some c, None) -> no_pipe_cond c.
Proof.
  unfold parseConditional, no_pipe_cond, no_pipe. intros H.
  pose proof (SplitN2_Forall _ expr 63 H) as Hq.
  destruct (negb (length (strings.SplitN2 expr 63) =? 2)%nat); [discriminate|].
  pose proof (nth_str_Forall _ _ 0 Hq) as Hc.
  pose proof (nth_str_Forall _ _ 1 Hq) as Htf.
  pose proof (SplitN2_Forall _ _ 58 Htf) as Htf'.
  pose proof (SplitN2_Forall _ _ 58 Hc) as Hc'.
  destruct (negb (length (strings.SplitN2 (nth_str (strings.SplitN2 expr 63) 1) 58) =? 2)%nat);
    [discriminate|].
  destruct (negb (length (strings.SplitN2 (nth_str (strings.SplitN2 expr 63) 0) 58) =? 2)%nat);
    [discriminate|].
  intros [= <-]; simpl.
  repeat split; apply TrimSpace_Forall, nth_str_Forall; assumption.
Qed.

Lemma parse_segments_no_pipe (segs : list (list Z)) :
  forall ph p, Forall no_pipe segs -> no_pipe_node ph ->
    parse_segments segs ph = (Some p, None) -> no_pipe_node p.
Proof.
  induction segs as [|part rest IH]; simpl; intros ph p Hsegs Hph.
  - intros [= <-]. exact Hph.
  - inversion Hsegs as [|? ? Hpart Hrest]; subst.
    pose proof (TrimSpace_Forall _ _ Hpart) as Hseg.
    destruct (string_eqb (strings.TrimSpace part) []); [discriminate|].
    destruct Hph as (Hpath & Hfs & Hc).
    destruct (strings.Contains (strings.TrimSpace part) 63).
    + destruct (parseConditional (strings.TrimSpace part)) as [cond [err|]] eqn:Hpc;
        [discriminate|].
      apply IH; [exact Hrest|]. split; [|split]; simpl; auto.
      intros c' ->. eapply parseConditional_no_pipe; eauto.
    + unfold parseFormatterSegment.
      pose proof (SplitN2_Forall _ _ 58 Hseg) as Hff.
      destruct (string_eqb _ []); [discriminate|].
      apply IH; [exact Hrest|]. split; [|split]; simpl; auto.
      apply Forall_app; split; [exact Hfs|].
      repeat constructor; simpl.
      * apply TrimSpace_Forall, nth_str_Forall, Hff.
      * destruct (1 <? _)%nat; [|constructor].
        apply TrimSpace_Forall, nth_str_Forall, Hff.
Qed.

Lemma parsePlaceholder_no_pipe (expr : list Z) (p : PlaceholderNode) :
  parsePlaceholder expr = (Some p, None) -> no_pipe_node p.
Proof.
  unfold parsePlaceholder.
  destruct (string_eqb (strings.TrimSpace expr) []); [discriminate|].
  pose proof (Split_pieces (strings.TrimSpace expr) 124) as Hparts.
  destruct (length (strings.Split (strings.TrimSpace expr) 124) =? 0)%nat; [discriminate|].
  apply parse_segments_no_pipe.
  - destruct (strings.Split (strings.TrimSpace expr) 124); simpl; [constructor|].
    inversion Hparts; assumption.
  - split; [|split]; simpl; [|constructor|discriminate].
    apply TrimSpace_Forall. apply (nth_str_Forall _ _ 0 Hparts).
Qed.

(** ** The template parser *)

Lemma scan_braces_ge (rest : list Z) :
  forall depth j, (j <= snd (scan_braces rest depth j))%nat.
Proof.
  induction rest as [|r rest IH]; simpl; intros depth j; [lia|].
  destruct (0 <? depth); simpl; [|lia].
  etransitivity; [|apply IH]. lia.
Qed.

Lemma parse_loop_S (fuel : nat) (runes : list Z) (i : nat) (nodes : list Node) (buf : list Z) :
  parse_loop (S fuel) runes i nodes buf =
  if (i <? length runes)%nat then
    if negb (rune_at runes i =? 123) then
      parse_loop fuel runes (S i) nodes (buf ++ [rune_at runes i])
    else
      let '(nodes, buf) := flush nodes buf in
      let '(depth, j) := scan_braces (drop (S i) runes) 1 (S i) in
      if negb (depth =? 0) then
        parse_loop fuel runes (S i) nodes (buf ++ [rune_at runes i])
      else
        match parsePlaceholder (slice runes (S i) (j - 1)) with
        | (_, Some _) =>
          parse_loop fuel runes j nodes (buf ++ [123] ++ slice runes (S i) (j - 1) ++ [125])
        | (Some ph, None) =>
          let '(nodes, buf) := flush nodes buf in
          parse_loop fuel runes j (nodes ++ [Placeholder ph]) buf
        | (None, None) => parse_loop fuel runes j nodes buf
        end
  else Done (fst (flush nodes buf)).
Proof. reflexivity. Qed.

Lemma parse_loop_end (fuel : nat) (runes : list Z) (i : nat) (nodes : list Node) (buf : list Z) :
  (length runes <= i)%nat -> parse_loop fuel runes i nodes buf = Done (fst (flush nodes buf)).
Proof.
  intros H. destruct fuel; simpl; destruct (Nat.ltb_spec i (length runes)); try lia; reflexivity.
Qed.

(** Enough fuel: one unit for each position left. *)
Lemma parse_loop_total (fuel : nat) :
  forall runes i nodes buf, (length runes - i <= fuel)%nat ->
    exists ast, parse_loop fuel runes i nodes buf = Done ast.
Proof.
  induction fuel as [|fuel IH]; intros runes i nodes buf Hfuel.
  - rewrite parse_loop_end by lia. eauto.
  - rewrite parse_loop_S.
    destruct (Nat.ltb_spec i (length runes)) as [Hi|Hi]; [|eauto].
    destruct (negb (rune_at runes i =? 123)); [apply IH; lia|].
    destruct (flush nodes buf) as [nodes1 buf1].
    pose proof (scan_braces_ge (drop (S i) runes) 1 (S i)) as Hj.
    destruct (scan_braces (drop (S i) runes) 1 (S i)) as [depth j]; simpl in Hj.
    destruct (negb (depth =? 0)); [apply IH; lia|].
    destruct (parsePlaceholder (slice runes (S i) (j - 1))) as [[ph|] [err|]];
      try (apply IH; lia).
    destruct (flush nodes1 buf1); apply IH; lia.
Qed.

Lemma ParseTemplate_total (tpl : list Z) : exists ast, ParseTemplate tpl = Done (ast, None).
Proof.
  unfold ParseTemplate.
  destruct (parse_loop_total (length tpl) tpl 0 [] []) as [ast ->]; [lia|].
  exists ast. reflexivity.
Qed.

Lemma flush_parsed (nodes : list Node) (buf : list Z) :
  Forall parsed_node nodes -> Forall parsed_node (fst (flush nodes buf)).
Proof.
  intros H. destruct buf; simpl; [exact H|].
  apply Forall_app; split; [exact H|]. repeat constructor.
Qed.

Lemma parse_loop_parsed (fuel : nat) :
  forall runes i nodes buf ast, Forall parsed_node nodes ->
    parse_loop fuel runes i nodes buf = Done ast -> Forall parsed_node ast.
Proof.
  induction fuel as [|fuel IH]; intros runes i nodes buf ast Hn.
  - simpl. destruct (i <? length runes)%nat; [discriminate|].
    intros [= <-]. apply flush_parsed, Hn.
  - rewrite parse_loop_S.
    destruct (i <? length runes)%nat; [|intros [= <-]; apply flush_parsed, Hn].
    destruct (negb (rune_at runes i =? 123)); [apply IH, Hn|].
    pose proof (flush_parsed nodes buf Hn) as Hn1.
    destruct (flush nodes buf) as [nodes1 buf1]; simpl in Hn1.
    destruct (scan_braces (drop (S i) runes) 1 (S i)) as [depth j].
    destruct (negb (depth =? 0)); [apply IH, Hn1|].
    destruct (parsePlaceholder (slice runes (S i) (j - 1))) as [[ph|] [err|]] eqn:Hph;
      try (apply IH, Hn1).
    pose proof (flush_parsed nodes1 buf1 Hn1) as Hn2.
    destruct (flush nodes1 buf1) as [nodes2 buf2]; simpl in Hn2.
    apply IH. apply Forall_app; split; [exact Hn2|].
    repeat constructor. simpl. eauto.
Qed.

Lemma ParseTemplate_parsed (tpl : list Z) (ast : list Node) (err : option error) :
  ParseTemplate tpl = Done (ast, err) -> Forall parsed_node ast.
Proof.
  unfold ParseTemplate.
  destruct (parse_loop (length tpl) tpl 0 [] []) as [nodes| |] eqn:H; simpl; try discriminate.
  intros [= <- <-]. eapply parse_loop_parsed; [|exact H]. constructor.
Qed.

Lemma parse_segments_Path (segs : list (list Z)) :
  forall ph p, parse_segments segs ph = (Some p, None) -> Path p = Path ph.
Proof.
  induction segs as [|part rest IH]; simpl; intros ph p.
  - intros [= <-]. reflexivity.
  - destruct (string_eqb (strings.TrimSpace part) []); [discriminate|].
    destruct (strings.Contains (strings.TrimSpace part) 63).
    + destruct (parseConditional (strings.TrimSpace part)) as [cond [err|]]; [discriminate|].
      intros H. apply IH in H. exact H.
    + destruct (string_eqb _ []); [discriminate|].
      intros H. apply IH in H. exact H.
Qed.

Lemma parsePlaceholder_Some (raw : list Z) (p : PlaceholderNode) :
  parsePlaceholder raw = (Some p, None) ->
  strings.TrimSpace raw <> []
  /\ Path p = strings.TrimSpace (nth_str (strings.Split (strings.TrimSpace raw) 124) 0).
Proof.
  unfold parsePlaceholder.
  destruct (string_eqb (strings.TrimSpace raw) []) eqn:He; [discriminate|].
  apply string_eqb_neq in He.
  destruct (length (strings.Split (strings.TrimSpace raw) 124) =? 0)%nat; [discriminate|].
  intros H. apply parse_segments_Path in H. simpl in H. auto.
Qed.

(** [parsePlaceholder] returns a node exactly when it returns no error. *)
Lemma parse_segments_shape (segs : list (list Z)) :
  forall ph, (exists p, parse_segments segs ph = (Some p, None))
             \/ (exists e, parse_segments segs ph = (None, Some e)).
Proof.
  induction segs as [|part rest IH]; simpl; intros ph; [left; eauto|].
  destruct (string_eqb (strings.TrimSpace part) []); [right; eauto|].
  destruct (strings.Contains (strings.TrimSpace part) 63).
  - destruct (parseConditional (strings.TrimSpace part)) as [cond [err|]];
      [right; eauto | apply IH].
  - destruct (string_eqb _ []); [right; eauto | apply IH].
Qed.

Lemma parsePlaceholder_shape (raw : list Z) :
  (exists p, parsePlaceholder raw = (Some p, None))
  \/ (exists e, parsePlaceholder raw = (None, Some e)).
Proof.
  unfold parsePlaceholder.
  destruct (string_eqb (strings.TrimSpace raw) []); [right; eauto|].
  destruct (length (strings.Split (strings.TrimSpace raw) 124) =? 0)%nat; [right; eauto|].
  apply parse_segments_shape.
Qed.

Lemma parsePlaceholder_blank (raw : list Z) :
  strings.TrimSpace raw = [] -> parsePlaceholder raw = (None, Some EEmptyExpression).
Proof. intros H. unfold parsePlaceholder. rewrite H. reflexivity. Qed.

Lemma scan_braces_close (raw rest : list Z) :
  no_brace raw ->
  forall j, scan_braces (raw ++ 125 :: rest) 1 j = (0, (j + length raw + 1)%nat).
Proof.
  induction raw as [|r raw IH]; simpl; intros Hraw j.
  - destruct rest; simpl; f_equal; lia.
  - inversion Hraw as [|? ? [H1 H2] Hraw']; subst.
    destruct (Z.eqb_spec r 123); [contradiction|].
    destruct (Z.eqb_spec r 125); [contradiction|].
    rewrite IH by assumption. f_equal. lia.
Qed.

(** A brace pair whose inner text [parsePlaceholder] rejects is kept as
    it is, braces included. *)
Lemma ParseTemplate_fallback (raw : list Z) (e : error) :
  no_brace raw -> parsePlaceholder raw = (None, Some e) ->
  ParseTemplate (123 :: raw ++ [125]) = Done ([TextNode (123 :: raw ++ [125])], None).
Proof.
  intros Hraw Hp. unfold ParseTemplate.
  change (length (123 :: raw ++ [125])) with (S (length (raw ++ [125]))).
  rewrite parse_loop_S. simpl length.
  change (0 <? S (length (raw ++ [125%Z])))%nat with true.
  change (rune_at (123 :: raw ++ [125]) 0) with 123. simpl negb. cbv iota.
  change (flush [] []) with (@nil Node, @nil Z). cbv iota.
  change (drop 1 (123 :: raw ++ [125])) with (raw ++ [125]).
  rewrite scan_braces_close by assumption. simpl negb. cbv iota.
  assert (Hs : slice (123 :: raw ++ [125]) 1 (1 + length raw + 1 - 1) = raw).
  { unfold slice. change (drop 1 (123 :: raw ++ [125])) with (raw ++ [125]).
    apply take_app_length'. lia. }
  rewrite Hs, Hp.
  rewrite parse_loop_end by (simpl; rewrite length_app; simpl; lia).
  reflexivity.
Qed.

(** *** Braces that are never closed *)

Lemma scan_braces_open (rest : list Z) :
  Forall (fun r => r <> 125) rest ->
  forall depth j, 0 < depth -> 0 < fst (scan_braces rest depth j).
Proof.
  induction rest as [|r rest IH]; simpl; intros Hr depth j Hd; [exact Hd|].
  inversion Hr as [|? ? Hr1 Hr2]; subst.
  destruct (Z.ltb_spec 0 depth); [|lia].
  destruct (Z.eqb_spec r 125); [contradiction|].
  apply IH; [exact Hr2|]. destruct (r =? 123); lia.
Qed.

Lemma flush_text (nodes : list Node) (buf : list Z) :
  all_text nodes ->
  all_text (fst (flush nodes buf))
  /\ text_of (fst (flush nodes buf)) ++ snd (flush nodes buf) = text_of nodes ++ buf.
Proof.
  intros H. destruct buf as [|r buf]; simpl; [split; [exact H | reflexivity]|].
  split.
  - apply Forall_app; split; [exact H | repeat constructor].
  - unfold text_of. rewrite flat_map_app. simpl. rewrite !app_nil_r. reflexivity.
Qed.

Lemma drop_rune_at (runes : list Z) (i : nat) :
  (i < length runes)%nat -> drop i runes = rune_at runes i :: drop (S i) runes.
Proof.
  intros Hi. destruct (lookup_lt_is_Some_2 runes i Hi) as [x Hx].
  unfold rune_at. rewrite (nth_lookup_Some _ _ _ _ Hx). apply drop_S, Hx.
Qed.

Lemma parse_loop_no_close (runes : list Z) :
  Forall (fun r => r <> 125) runes ->
  forall fuel i nodes buf ast, all_text nodes ->
    parse_loop fuel runes i nodes buf = Done ast ->
    all_text ast /\ text_of ast = text_of nodes ++ buf ++ drop i runes.
Proof.
  intros Hr fuel. induction fuel as [|fuel IH]; intros i nodes buf ast Hn.
  - simpl. destruct (Nat.ltb_spec i (length runes)); [discriminate|].
    intros [= <-]. destruct (flush_text nodes buf Hn) as [H1 H2]. split; [exact H1|].
    rewrite drop_ge, app_nil_r by lia.
    destruct buf; simpl in *; [rewrite app_nil_r; reflexivity|].
    rewrite app_nil_r in H2. exact H2.
  - rewrite parse_loop_S.
    destruct (Nat.ltb_spec i (length runes)) as [Hi|Hi].
    + destruct (negb (rune_at runes i =? 123)).
      * intros H. apply IH in H; [|exact Hn]. destruct H as [H1 H2]. split; [exact H1|].
        rewrite H2, (drop_rune_at runes i Hi), <- !app_assoc. reflexivity.
      * destruct (flush_text nodes buf Hn) as [Hn1 Ht].
        destruct (flush nodes buf) as [nodes1 buf1]; simpl in Hn1, Ht.
        pose proof (scan_braces_open (drop (S i) runes) (Forall_drop _ _ _ Hr) 1 (S i))
          as Hopen.
        destruct (scan_braces (drop (S i) runes) 1 (S i)) as [depth j]; simpl in Hopen.
        destruct (Z.eqb_spec depth 0) as [->|Hd]; [lia|]. simpl negb. cbv iota.
        intros H. apply IH in H; [|exact Hn1]. destruct H as [H1 H2]. split; [exact H1|].
        rewrite H2, (drop_rune_at runes i Hi), <- !app_assoc.
        rewrite (app_assoc (text_of nodes1)), Ht, <- !app_assoc. reflexivity.
    + intros [= <-]. destruct (flush_text nodes buf Hn) as [H1 H2]. split; [exact H1|].
      rewrite drop_ge, app_nil_r by lia.
      destruct buf; simpl in *; [rewrite app_nil_r; reflexivity|].
      rewrite app_nil_r in H2. exact H2.
Qed.

Lemma ParseTemplate_no_close (tpl : list Z) (ast : list Node) :
  Forall (fun r => r <> 125) tpl -> ParseTemplate tpl = Done (ast, None) ->
  all_text ast /\ text_of ast = tpl.
Proof.
  intros Hr. unfold ParseTemplate.
  destruct (parse_loop (length tpl) tpl 0 [] []) as [nodes| |] eqn:H; simpl; try discriminate.
  intros [= <-]. apply (parse_loop_no_close tpl Hr) in H; [|constructor].
  simpl in H. exact H.
Qed.

(** *** Resolution is total on bags whose structs export every field *)

Lemma all_exported_lookup (m : list (list Z * value)) (key : list Z) (v : value) :
  all_exported (VMap m) = true -> map_lookup m key = Some v -> all_exported v = true.
Proof.
  induction m as [|[k x] m IH]; simpl; [discriminate|].
  intros H. apply andb_prop in H. destruct H as [Hx Hm].
  destruct (string_eqb k key); [intros [= <-]; exact Hx | apply IH, Hm].
Qed.

Lemma all_exported_field (fs : list (list Z * bool * value)) (name : list Z) (e : bool)
    (x : value) :
  all_exported (VStruct fs) = true -> In (name, e, x) fs -> e = true /\ all_exported x = true.
Proof.
  induction fs as [|[[n' e'] x'] fs IH]; simpl; [intros _ []|].
  intros H. apply andb_prop in H. destruct H as [H Hfs].
  apply andb_prop in H. destruct H as [He Hx].
  intros [[= -> -> ->]|Hin]; [split; assumption | apply IH; assumption].
Qed.

Section ResolveFacts.

Context {L : GoLib}.

Lemma FieldByNameFunc_In (fs : list (list Z * bool * value)) (f : list Z -> bool)
    (fld : list Z * bool * value) :
  FieldByNameFunc fs f = Some fld -> In fld fs.
Proof.
  unfold FieldByNameFunc.
  destruct (List.filter (fun f0 => f (fst (fst f0))) fs) as [|a [|b l]] eqn:Hf;
    try discriminate.
  intros [= <-].
  assert (Hin : In a (List.filter (fun f0 => f (fst (fst f0))) fs))
    by (rewrite Hf; left; reflexivity).
  apply List.filter_In in Hin. apply Hin.
Qed.

Lemma resolve_segment_exported (current : value) (seg : list Z) :
  all_exported current = true ->
  exists o, resolve_segment current seg = Done o
            /\ forall v, o = Some v -> all_exported v = true.
Proof.
  intros H.
  assert (Hs : forall fs, all_exported (VStruct fs) = true ->
    exists o,
      match FieldByNameFunc fs (fun name => EqualFold name seg) with
      | None => Done None
      | Some (name, exported, v) =>
        if exported then Done (Some v) else Panic (PUnexportedField name)
      end = Done o /\ forall v, o = Some v -> all_exported v = true).
  { intros fs Hfs.
    destruct (FieldByNameFunc fs (fun name => EqualFold name seg)) as [[[n e] x]|] eqn:Hf.
    - apply FieldByNameFunc_In in Hf.
      destruct (all_exported_field fs n e x Hfs Hf) as [-> Hx].
      exists (Some x). split; [reflexivity|]. intros v [= <-]. exact Hx.
    - exists None. split; [reflexivity | discriminate]. }
  destruct current as [| | | | | |m|fs|[x|]| |]; simpl in *; try discriminate H;
    try (exists None; split; [reflexivity | discriminate]).
  - exists (map_lookup m seg). split; [reflexivity|].
    intros v Hv. eapply all_exported_lookup; eauto.
  - apply Hs, H.
  - destruct x as [| | | | | |m|fs|[x|]| |]; simpl in *; try discriminate H;
      try (exists None; split; [reflexivity | discriminate]).
    apply Hs, H.
Qed.

Lemma resolve_loop_exported (segs : list (list Z)) :
  forall current, all_exported current = true ->
    exists v ok, resolve_loop segs current = Done (v, ok).
Proof.
  induction segs as [|seg rest IH]; intros current H; simpl; [eauto|].
  destruct (resolve_segment_exported current seg H) as (o & -> & Ho). simpl.
  destruct o as [v|]; [apply IH, Ho; reflexivity | eauto].
Qed.

(** With exported fields only, [getValueByPath] returns a value and a
    boolean for every path: it does not panic. *)
Lemma getValueByPath_exported (args : list (list Z * value)) (path : list Z) :
  all_exported (VMap args) = true ->
  exists v ok, getValueByPath args path = Done (v, ok).
Proof. intros H. apply resolve_loop_exported, H. Qed.


End ResolveFacts.

(** Closing an equation between closed terms by evaluation. *)
Ltac by_eval :=
  lazymatch goal with
  | |- @eq ?T ?a ?b => vm_cast_no_check (@eq_refl T b)
  end.

(** ** Evaluation *)

Section EngineFacts.

Context {L : GoLib}.

Implicit Types (reg : gmap (list Z) FormatterFunc) (c : gmap (list Z) (list Node)).
Implicit Types (render : render_fn) (args : list (list Z * value)).

Lemma apply_formatters_app reg (fs1 fs2 : list Formatter) (v : value) :
  apply_formatters reg (fs1 ++ fs2) v =
  match apply_formatters reg fs1 v with
  | (v', None) => apply_formatters reg fs2 v'
  | (v', Some err) => (v', Some err)
  end.
Proof.
  revert v. induction fs1 as [|f fs1 IH]; intros v; simpl; [reflexivity|].
  destruct (applyRegisteredFormatter reg v (Name f) (Arg f)) as [v' [err|]];
    [reflexivity | apply IH].
Qed.

Lemma eval_nodes_app render reg args (pre rest : list Node) :
  forall c buf s c1,
    eval_nodes render reg c pre args buf = Done (s, None, c1) ->
    eval_nodes render reg c (pre ++ rest) args buf = eval_nodes render reg c1 rest args s.
Proof.
  induction pre as [|node pre IH]; simpl; intros c buf s c1 H.
  - injection H as <- <-. reflexivity.
  - destruct (Node_Eval render reg c node args) as [[[s' [e|]] c']| |]; simpl in *;
      try discriminate.
    apply IH, H.
Qed.

Lemma PlaceholderNode_Eval_not_found render reg c (p : PlaceholderNode) args (v : value) :
  getValueByPath args (Path p) = Done (v, false) ->
  PlaceholderNode_Eval render reg c p args = Done ([], Some (EValueNotFound (Path p)), c).
Proof. intros H. unfold PlaceholderNode_Eval. rewrite H. reflexivity. Qed.

(** A sequence with a placeholder that does not resolve never evaluates
    to a text. *)
Lemma eval_nodes_unresolved render reg args (nodes : list Node) (p : PlaceholderNode)
    (v : value) :
  In (Placeholder p) nodes -> getValueByPath args (Path p) = Done (v, false) ->
  forall c buf s c', eval_nodes render reg c nodes args buf <> Done (s, None, c').
Proof.
  intros Hin Hp. induction nodes as [|node nodes IH]; [destruct Hin|].
  intros c buf s c'. simpl.
  destruct (Node_Eval render reg c node args) as [[[s' [e|]] c1]| |] eqn:Hn; simpl;
    try discriminate.
  destruct Hin as [->|Hin]; [|apply IH, Hin].
  simpl in Hn. rewrite (PlaceholderNode_Eval_not_found _ _ _ _ _ _ Hp) in Hn.
  discriminate.
Qed.

Lemma eval_nodes_text render reg args (nodes : list Node) :
  all_text nodes ->
  forall c buf, eval_nodes render reg c nodes args buf = Done (buf ++ text_of nodes, None, c).
Proof.
  induction nodes as [|node nodes IH]; intros H c buf; simpl.
  - rewrite app_nil_r. reflexivity.
  - inversion H as [|? ? Hn Hrest]; subst. destruct node as [t|p]; [|destruct Hn].
    simpl. rewrite IH by exact Hrest. rewrite <- app_assoc. reflexivity.
Qed.

(** *** The cache *)

Lemma cache_wf_empty : cache_wf ∅.
Proof. intros tpl ast H. rewrite lookup_empty in H. discriminate. Qed.

Lemma cache_wf_insert c (tpl : list Z) (ast : list Node) :
  cache_wf c -> ParseTemplate tpl = Done (ast, None) -> cache_wf (<[tpl := ast]> c).
Proof.
  intros Hc Hp t a. rewrite lookup_insert. case_decide as Heq.
  - subst t. simpl. intros [= <-]. exact Hp.
  - apply Hc.
Qed.

Lemma cache_wf_delete c (tpl : list Z) : cache_wf c -> cache_wf (delete tpl c).
Proof.
  intros Hc t a. rewrite lookup_delete. case_decide; [discriminate | apply Hc].
Qed.

(** The AST a call of [RenderTemplate] evaluates, under the invariant. *)
Lemma RenderTemplate_S (fuel : nat) reg c (tpl : list Z) args (ast : list Node) :
  cache_wf c -> ParseTemplate tpl = Done (ast, None) ->
  RenderTemplate (S fuel) reg c tpl args =
  TemplateAST_Eval (RenderTemplate fuel reg) reg (<[tpl := ast]> c) ast args.
Proof.
  intros Hc Hp. simpl. destruct (c !! tpl) as [a|] eqn:Hl.
  - pose proof (Hc _ _ Hl) as Ha. rewrite Hp in Ha. injection Ha as <-.
    rewrite (insert_id c tpl ast Hl). reflexivity.
  - rewrite Hp. reflexivity.
Qed.

Lemma eval_nodes_agrees reg args (render1 : render_fn)
    (render2 : list Z -> list (list Z * value) -> outcome (list Z * option error)) :
  (forall c t, cache_wf c -> agrees (render1 c t args) (render2 t args)) ->
  forall (nodes : list Node) c c0 buf, cache_wf c ->
    agrees (eval_nodes render1 reg c nodes args buf)
           (result_of (eval_nodes (fun c t a => let* r := render2 t a in Done (r, c))
                                  reg c0 nodes args buf)).
Proof.
  intros Hr nodes. induction nodes as [|node nodes IH]; intros c c0 buf Hc; simpl.
  - split; [reflexivity | exact Hc].
  - destruct node as [t|p]; simpl.
    + apply IH, Hc.
    + unfold PlaceholderNode_Eval.
      destruct (getValueByPath args (Path p)) as [[v ok]| |]; simpl; try reflexivity.
      destruct ok; simpl; [|split; [reflexivity | exact Hc]].
      destruct (apply_formatters reg (Formatters p) v) as [v' [e|]]; simpl;
        [split; [reflexivity | exact Hc]|].
      destruct (Cond p) as [cond|]; simpl; [|apply IH, Hc].
      destruct (compareValues v' (Op cond) (TestValue cond)) as [b [e|]]; simpl;
        [split; [reflexivity | exact Hc]|].
      assert (Hb : forall t,
        agrees
          (let* (s, err, astCache) := render1 c t args in
           match err with
           | Some e => Done ([], Some e, astCache)
           | None => eval_nodes render1 reg astCache nodes args (buf ++ s)
           end)
          (result_of
             (let* (s, err, astCache) := (let* r := render2 t args in Done (r, c0)) in
              match err with
              | Some e => Done ([], Some e, astCache)
              | None =>
                eval_nodes (fun c t a => let* r := render2 t a in Done (r, c))
                           reg astCache nodes args (buf ++ s)
              end))).
      { intros t. pose proof (Hr c t Hc) as Ht. unfold agrees in Ht.
        destruct (render1 c t args) as [[[s [e|]] c1]| |]; simpl in *.
        - destruct Ht as [-> Hc1]. simpl. split; [reflexivity | exact Hc1].
        - destruct Ht as [-> Hc1]. simpl. apply IH, Hc1.
        - rewrite Ht. reflexivity.
        - rewrite Ht. reflexivity. }
      destruct b; apply Hb.
Qed.

Lemma RenderTemplate_agrees (fuel : nat) reg args :
  forall c (tpl : list Z), cache_wf c ->
    agrees (RenderTemplate fuel reg c tpl args) (render_uncached fuel reg tpl args).
Proof.
  induction fuel as [|fuel IH]; intros c tpl Hc; [reflexivity|].
  destruct (ParseTemplate_total tpl) as [ast Hp].
  rewrite (RenderTemplate_S fuel reg c tpl args ast Hc Hp).
  simpl render_uncached. rewrite Hp. simpl obind.
  unfold TemplateAST_Eval.
  apply (eval_nodes_agrees reg args (RenderTemplate fuel reg)
           (render_uncached fuel reg)).
  - intros c' t Hc'. apply IH, Hc'.
  - apply cache_wf_insert; assumption.
Qed.

Lemma agrees_result (o1 : outcome (list Z * option error * gmap (list Z) (list Node)))
    (o2 : outcome (list Z * option error)) :
  agrees o1 o2 -> result_of o1 = o2.
Proof.
  unfold agrees. destruct o1 as [[r c]| |]; simpl; [intros [-> _] | intros -> ..];
    reflexivity.
Qed.

(** *** More fuel changes no result *)

Lemma eval_nodes_mono reg args (render1 render2 : render_fn) :
  (forall c t o, render1 c t args = o -> o <> OutOfFuel -> render2 c t args = o) ->
  forall (nodes : list Node) c buf o,
    eval_nodes render1 reg c nodes args buf = o -> o <> OutOfFuel ->
    eval_nodes render2 reg c nodes args buf = o.
Proof.
  intros Hr nodes. induction nodes as [|node nodes IH]; intros c buf o; simpl;
    [intros; assumption|].
  assert (Hn : forall o', Node_Eval render1 reg c node args = o' -> o' <> OutOfFuel ->
                          Node_Eval render2 reg c node args = o').
  { destruct node as [t|p]; simpl; [intros; assumption|].
    unfold PlaceholderNode_Eval.
    destruct (getValueByPath args (Path p)) as [[v ok]| |]; simpl; try (intros; assumption).
    destruct ok; simpl; [|intros; assumption].
    destruct (apply_formatters reg (Formatters p) v) as [v' [e|]]; [intros; assumption|].
    destruct (Cond p) as [cond|]; [|intros; assumption].
    destruct (compareValues v' (Op cond) (TestValue cond)) as [b [e|]];
      [intros; assumption|].
    destruct b; apply Hr. }
  destruct (Node_Eval render1 reg c node args) as [[[s [e|]] c1]| |] eqn:H1; simpl.
  - rewrite (Hn _ eq_refl) by discriminate. simpl. auto.
  - rewrite (Hn _ eq_refl) by discriminate. simpl. apply IH.
  - rewrite (Hn _ eq_refl) by discriminate. simpl. auto.
  - intros <- Hne. contradiction.
Qed.

Lemma RenderTemplate_fuel_S (fuel : nat) reg args :
  forall c (tpl : list Z) o,
    RenderTemplate fuel reg c tpl args = o -> o <> OutOfFuel ->
    RenderTemplate (S fuel) reg c tpl args = o.
Proof.
  induction fuel as [|fuel IH]; intros c tpl o; [simpl; intros <- H; contradiction|].
  intros H Hne.
  change (RenderTemplate (S (S fuel)) reg c tpl args) with
    (match c !! tpl with
     | Some ast => TemplateAST_Eval (RenderTemplate (S fuel) reg) reg c ast args
     | None =>
       let* (ast, err) := ParseTemplate tpl in
       match err with
       | Some e => Done (tpl, Some e, c)
       | None => TemplateAST_Eval (RenderTemplate (S fuel) reg) reg (<[tpl := ast]> c) ast args
       end
     end).
  change (RenderTemplate (S fuel) reg c tpl args) with
    (match c !! tpl with
     | Some ast => TemplateAST_Eval (RenderTemplate fuel reg) reg c ast args
     | None =>
       let* (ast, err) := ParseTemplate tpl in
       match err with
       | Some e => Done (tpl, Some e, c)
       | None => TemplateAST_Eval (RenderTemplate fuel reg) reg (<[tpl := ast]> c) ast args
       end
     end) in H.
  destruct (c !! tpl) as [ast|].
  - eapply eval_nodes_mono; [|exact H|exact Hne]. intros c' t o'. apply IH.
  - destruct (ParseTemplate tpl) as [[ast [e|]]| |]; simpl in *; try assumption.
    eapply eval_nodes_mono; [|exact H|exact Hne]. intros c' t o'. apply IH.
Qed.

Lemma RenderTemplate_fuel_le (fuel fuel' : nat) reg c (tpl : list Z) args
    (r : list Z * option error * gmap (list Z) (list Node)) :
  (fuel <= fuel')%nat ->
  RenderTemplate fuel reg c tpl args = Done r -> RenderTemplate fuel' reg c tpl args = Done r.
Proof.
  intros Hle H. induction Hle as [|m Hle IH]; [exact H|].
  apply RenderTemplate_fuel_S; [exact IH | discriminate].
Qed.

End EngineFacts.

(** ** The claims *)

Section Claims.

Context {L : GoLib}.

Implicit Types (reg : gmap (list Z) FormatterFunc) (c : gmap (list Z) (list Node)).
Implicit Types (args : list (list Z * value)).

Lemma RenderTemplate_from (n k : nat) reg c (tpl : list Z) args
    (r : list Z * option error * gmap (list Z) (list Node)) :
  RenderTemplate n reg c tpl args = Done r ->
  RenderTemplate (n + k) reg c tpl args = Done r.
Proof. apply RenderTemplate_fuel_le. lia. Qed.

(** C1.  A placeholder with a conditional: once the path is resolved
    and the formatters applied, the value they give is compared with the
    test value, and the evaluation is exactly the call of
    [RenderTemplate] on the branch chosen (the true branch when the
    comparison holds, the false one otherwise), with the argument bag
    and the cache of the caller; the other branch plays no part, and
    the cache afterwards holds no entry for it.  The two renders of
    the specification give "No items" and "5 items". *)
Theorem C1_conditional_renders_chosen_branch (fuel : nat) reg c
    (p : PlaceholderNode) (cond : Conditional) args (v0 v : value) (b : bool) :
  Cond p = Some cond ->
  getValueByPath args (Path p) = Done (v0, true) ->
  apply_formatters reg (Formatters p) v0 = (v, None) ->
  compareValues v (Op cond) (TestValue cond) = (b, None) ->
  Node_Eval (RenderTemplate fuel reg) reg c (Placeholder p) args
  = RenderTemplate fuel reg c (if b then TrueExpr cond else FalseExpr cond) args
  /\ (forall k,
        RenderTemplate (2 + k) init_registry ∅ tpl_items [(gs "count", VInt 0)]
        = Done (gs "No items", None,
                <[gs "No items" := [TextNode (gs "No items")]]>
                  (<[tpl_items := ast_items]> ∅)))
  /\ (forall k,
        RenderTemplate (2 + k) init_registry ∅ tpl_items [(gs "count", VInt 5)]
        = Done (gs "5 items", None,
                <[gs "{count} items" :=
                    [Placeholder {| Path := gs "count"; Formatters := []; Cond := None |};
                     TextNode (gs " items")]]>
                  (<[tpl_items := ast_items]> ∅)))
  /\ (<[gs "No items" := [TextNode (gs "No items")]]>
        (<[tpl_items := ast_items]> (∅ : gmap (list Z) (list Node))))
       !! gs "{count} items" = None.
Proof.
  intros Hcond Hpath Hfs Hcmp. split; [|split; [|split]].
  - simpl. unfold PlaceholderNode_Eval. rewrite Hpath. simpl.
    rewrite Hfs, Hcond, Hcmp. destruct b; reflexivity.
  - intros k. apply RenderTemplate_from. by_eval.
  - intros k. apply RenderTemplate_from. by_eval.
  - by_eval.
Qed.

(** C2.  Parsing is total: [ParseTemplate] returns an AST and no error
    for every text.  At an opening brace that no closing brace matches
    before the end of the input, the brace goes to the text buffer and
    the scan resumes at the next position; a text with no closing brace
    at all therefore renders to itself, and "{unclosed" does. *)
Theorem C2_parse_total_and_tolerant (tpl : list Z) :
  (exists ast, ParseTemplate tpl = Done (ast, None))
  /\ (forall fuel i nodes buf,
        (i < length tpl)%nat -> rune_at tpl i = 123 ->
        fst (scan_braces (drop (S i) tpl) 1 (S i)) <> 0 ->
        parse_loop (S fuel) tpl i nodes buf
        = parse_loop fuel tpl (S i) (fst (flush nodes buf)) (snd (flush nodes buf) ++ [123]))
  /\ (Forall (fun r => r <> 125) tpl ->
      forall fuel reg c args, cache_wf c ->
        exists ast, ParseTemplate tpl = Done (ast, None)
          /\ RenderTemplate (S fuel) reg c tpl args = Done (tpl, None, <[tpl := ast]> c))
  /\ (forall fuel reg,
        RenderTemplate (S fuel) reg ∅ (gs "{unclosed") []
        = Done (gs "{unclosed", None,
                <[gs "{unclosed" := [TextNode (gs "{unclosed")]]> ∅)).
Proof.
  split; [apply ParseTemplate_total|]. split; [|split].
  - intros fuel i nodes buf Hi Hr Hd. rewrite parse_loop_S.
    destruct (Nat.ltb_spec i (length tpl)); [|lia].
    rewrite Hr. simpl negb. cbv iota.
    destruct (flush nodes buf) as [nodes1 buf1].
    destruct (scan_braces (drop (S i) tpl) 1 (S i)) as [depth j]. simpl in *.
    destruct (Z.eqb_spec depth 0); [contradiction|]. reflexivity.
  - intros Hr fuel reg c args Hc.
    destruct (ParseTemplate_total tpl) as [ast Hp]. exists ast. split; [exact Hp|].
    rewrite (RenderTemplate_S fuel reg c tpl args ast Hc Hp).
    destruct (ParseTemplate_no_close tpl ast Hr Hp) as [Ht Htxt].
    unfold TemplateAST_Eval. rewrite eval_nodes_text by exact Ht.
    rewrite Htxt. reflexivity.
  - intros fuel reg.
    rewrite (RenderTemplate_S fuel reg ∅ (gs "{unclosed") []
               [TextNode (gs "{unclosed")] cache_wf_empty) by by_eval.
    reflexivity.
Qed.

(** C3.  The formatters of a placeholder are applied from left to
    right, each one to the value the one before it returned, and the
    first error stops the chain.  With the built-in formatters,
    [number:2] turns 12345.678 into "12,345.68" and [currency:¥] turns
    that text into "¥12,345.68", which is what the template renders
    to; in the other order the chain fails. *)
Theorem C3_formatters_left_to_right reg (fs1 fs2 : list Formatter) (f g : Formatter)
    (v : value) :
  apply_formatters reg (fs1 ++ fs2) v
  = match apply_formatters reg fs1 v with
    | (v', None) => apply_formatters reg fs2 v'
    | (v', Some err) => (v', Some err)
    end
  /\ apply_formatters reg [f; g] v
     = match applyRegisteredFormatter reg v (Name f) (Arg f) with
       | (v', None) => applyRegisteredFormatter reg v' (Name g) (Arg g)
       | (v', Some err) => (v', Some err)
       end
  /\ formatNumber (VFloat64 (f64.of_decimal 12345678 (-3))) (gs "2")
     = (gs "12,345.68", None)
  /\ formatCurrency (VString (gs "12,345.68")) (gs "¥") = (gs "¥12,345.68", None)
  /\ (forall k,
        RenderTemplate (1 + k) init_registry ∅ tpl_price args_price
        = Done (gs "¥12,345.68", None, <[tpl_price := ast_price]> ∅))
  /\ (forall k,
        result_of (RenderTemplate (1 + k) init_registry ∅
                     (gs "{p|currency:¥|number:2}") args_price)
        = Done ([], Some (ENumberCannotParse (gs "¥12345.68")))).
Proof.
  split; [apply apply_formatters_app|]. split; [|split; [|split; [|split]]].
  - simpl. destruct (applyRegisteredFormatter reg v (Name f) (Arg f)) as [v' [e|]];
      [reflexivity|].
    destruct (applyRegisteredFormatter reg v' (Name g) (Arg g)) as [v'' [e|]]; reflexivity.
  - by_eval.
  - by_eval.
  - intros k. apply RenderTemplate_from. by_eval.
  - intros k.
    rewrite (RenderTemplate_from 1 k init_registry ∅ (gs "{p|currency:¥|number:2}")
               args_price
               ([], Some (ENumberCannotParse (gs "¥12345.68")),
                <[gs "{p|currency:¥|number:2}" :=
                    [Placeholder
                       {| Path := gs "p";
                          Formatters := [{| Name := gs "currency"; Arg := gs "¥" |};
                                         {| Name := gs "number"; Arg := gs "2" |}];
                          Cond := None |}]]> ∅)) by by_eval.
    reflexivity.
Qed.

(** C4, as amended.  When the path of a placeholder does not resolve,
    the evaluation of a sequence of nodes which has evaluated without
    error up to that placeholder stops there: it returns the error
    [EValueNotFound] for that path and the empty text, and the nodes
    after it are not evaluated.  Whatever the nodes before it do, a
    template whose AST has such a placeholder never renders to a text.
    So "{user.missing}" with an empty [user] fails with
    [EValueNotFound]. *)
Theorem C4_value_not_found_aborts reg args (p : PlaceholderNode) (v : value) :
  getValueByPath args (Path p) = Done (v, false) ->
  (forall (render : render_fn) c (pre post : list Node) (s : list Z) c1,
      TemplateAST_Eval render reg c pre args = Done (s, None, c1) ->
      TemplateAST_Eval render reg c (pre ++ Placeholder p :: post) args
      = Done ([], Some (EValueNotFound (Path p)), c1))
  /\ (forall fuel c (tpl : list Z) (ast : list Node),
        cache_wf c -> ParseTemplate tpl = Done (ast, None) -> In (Placeholder p) ast ->
        forall s c', RenderTemplate fuel reg c tpl args <> Done (s, None, c'))
  /\ (forall k,
        RenderTemplate (1 + k) init_registry ∅ tpl_missing [(gs "user", VMap [])]
        = Done ([], Some (EValueNotFound (gs "user.missing")),
                <[tpl_missing := ast_missing]> ∅)).
Proof.
  intros Hp. split; [|split].
  - intros render c pre post s c1 Hpre. unfold TemplateAST_Eval in *.
    rewrite (eval_nodes_app render reg args pre (Placeholder p :: post) c [] s c1 Hpre).
    simpl. rewrite (PlaceholderNode_Eval_not_found render reg c1 p args v Hp).
    reflexivity.
  - intros fuel c tpl ast Hc Hparse Hin s c'. destruct fuel as [|fuel]; [discriminate|].
    rewrite (RenderTemplate_S fuel reg c tpl args ast Hc Hparse).
    apply (eval_nodes_unresolved _ reg args ast p v Hin Hp).
  - intros k. apply RenderTemplate_from. by_eval.
Qed.

(** C6.  Parsing is a function of the text, and the cache changes no
    result: under the invariant of the cache (an entry is what
    [ParseTemplate] gives for its key, which holds of the empty cache
    and is kept by [RenderTemplate]), a call ends the same way with
    any two caches, in particular with one that holds the template
    and the same one without it, and the same way as the render that
    parses every time. *)
Theorem C6_cache_preserves_rendering (fuel : nat) reg c1 c2 (tpl : list Z) args :
  cache_wf c1 -> cache_wf c2 ->
  (forall a1 a2, ParseTemplate tpl = Done a1 -> ParseTemplate tpl = Done a2 -> a1 = a2)
  /\ result_of (RenderTemplate fuel reg c1 tpl args)
     = result_of (RenderTemplate fuel reg c2 tpl args)
  /\ result_of (RenderTemplate fuel reg c1 tpl args)
     = result_of (RenderTemplate fuel reg (delete tpl c1) tpl args)
  /\ result_of (RenderTemplate fuel reg c1 tpl args) = render_uncached fuel reg tpl args
  /\ (forall r c', RenderTemplate fuel reg c1 tpl args = Done (r, c') -> cache_wf c')
  /\ cache_wf ∅.
Proof.
  intros H1 H2.
  pose proof (RenderTemplate_agrees fuel reg args c1 tpl H1) as A1.
  pose proof (RenderTemplate_agrees fuel reg args c2 tpl H2) as A2.
  pose proof (RenderTemplate_agrees fuel reg args (delete tpl c1) tpl
                (cache_wf_delete c1 tpl H1)) as A3.
  split; [|split; [|split; [|split; [|split]]]].
  - intros a1 a2 Ha1 Ha2. rewrite Ha1 in Ha2. injection Ha2 as ->. reflexivity.
  - rewrite (agrees_result _ _ A1), (agrees_result _ _ A2). reflexivity.
  - rewrite (agrees_result _ _ A1), (agrees_result _ _ A3). reflexivity.
  - apply agrees_result, A1.
  - intros r c' Hr. rewrite Hr in A1. apply A1.
  - apply cache_wf_empty.
Qed.

(** C5, at the input where the code leaves the claim.  A path segment
    that names a field which is not exported makes [getValueByPath]
    panic, in [f.Interface()], where the claim has it return a value or
    not-found; with the field exported and named [Name], resolving
    [user.name] succeeds, through a pointer or not. *)
Theorem C5_unexported_field_panics :
  getValueByPath [(gs "user", VStruct [(gs "name", false, VString (gs "Tom"))])]
    (gs "user.name")
  = Panic (PUnexportedField (gs "name"))
  /\ getValueByPath [(gs "user", VStruct [(gs "Name", true, VString (gs "Tom"))])]
       (gs "user.name")
     = Done (VString (gs "Tom"), true)
  /\ getValueByPath
       [(gs "user", VPtr (Some (VStruct [(gs "Name", true, VString (gs "Tom"))])))]
       (gs "user.name")
     = Done (VString (gs "Tom"), true).
Proof. split; [|split]; by_eval. Qed.

Lemma validate_nodes_empty_path reg (ast : list Node) (p : PlaceholderNode) :
  In (Placeholder p) ast -> Path p = [] -> validate_nodes reg ast <> None.
Proof.
  intros Hin Hp. induction ast as [|node ast IH]; [destruct Hin|].
  destruct Hin as [->|Hin].
  - simpl. rewrite Hp. discriminate.
  - destruct node as [t|q]; simpl; [apply IH, Hin|].
    destruct (string_eqb (strings.TrimSpace (Path q)) []); [discriminate|].
    destruct (validate_formatters reg (Formatters q)); [discriminate|].
    destruct (validate_cond (Cond q)); [discriminate|].
    apply IH, Hin.
Qed.

(** C7, as amended.  Every placeholder node of a parsed template comes
    from an inner text that [parsePlaceholder] accepted: that text is
    not empty once trimmed, and the path of the node is the trimmed
    text before its first pipe.  An inner text that is empty once
    trimmed fails to parse, and the brace pair is then emitted as it
    is, braces included.  The path itself can be empty; such a node is
    refused by [ValidateTemplate]. *)
Theorem C7_placeholder_path (tpl : list Z) (ast : list Node) (p : PlaceholderNode) :
  ParseTemplate tpl = Done (ast, None) -> In (Placeholder p) ast ->
  (exists raw,
      parsePlaceholder raw = (Some p, None)
      /\ strings.TrimSpace raw <> []
      /\ Path p = strings.TrimSpace (nth_str (strings.Split (strings.TrimSpace raw) 124) 0))
  /\ (forall raw, strings.TrimSpace raw = [] ->
        parsePlaceholder raw = (None, Some EEmptyExpression))
  /\ (forall raw, no_brace raw -> strings.TrimSpace raw = [] ->
        ParseTemplate (123 :: raw ++ [125])
        = Done ([TextNode (123 :: raw ++ [125])], None))
  /\ (Path p = [] -> forall reg, exists e, ValidateTemplate reg tpl = Done (Some e)).
Proof.
  intros Hparse Hin. split; [|split; [|split]].
  - pose proof (ParseTemplate_parsed tpl ast None Hparse) as Hall.
    rewrite List.Forall_forall in Hall. destruct (Hall _ Hin) as [raw Hraw].
    exists raw. split; [exact Hraw|]. apply parsePlaceholder_Some, Hraw.
  - apply parsePlaceholder_blank.
  - intros raw Hb Ht. apply (ParseTemplate_fallback raw EEmptyExpression Hb).
    apply parsePlaceholder_blank, Ht.
  - intros Hp reg. unfold ValidateTemplate.
    destruct (checkBraces tpl) as [e|]; [eauto|].
    rewrite Hparse. simpl.
    pose proof (validate_nodes_empty_path reg ast p Hin Hp) as Hv.
    destruct (validate_nodes reg ast) as [e|]; [eauto | contradiction].
Qed.

(** C8, as amended.  The inner text of a placeholder is split on every
    pipe, inside a nested brace pair or not: no field of a placeholder
    node of a parsed template (path, formatter names and arguments,
    operator, test value, branches) contains a pipe. *)
Theorem C8_no_pipe_survives (tpl : list Z) (ast : list Node) (p : PlaceholderNode) :
  ParseTemplate tpl = Done (ast, None) -> In (Placeholder p) ast -> no_pipe_node p.
Proof.
  intros Hparse Hin.
  pose proof (ParseTemplate_parsed tpl ast None Hparse) as Hall.
  rewrite List.Forall_forall in Hall. destruct (Hall _ Hin) as [raw Hraw].
  apply (parsePlaceholder_no_pipe raw p Hraw).
Qed.

(** C9, as amended.  The precision of [number] defaults to 0 and is
    read by [strconv.Atoi]: with an argument that is not empty and
    that [Atoi] refuses, [formatNumber] returns an error and no text,
    the invalid-precision error when the value is a number; with an
    argument read as a precision [fmt] accepts, a number is formatted
    with that many decimals. *)
Theorem C9_number_precision (v : value) (arg : list Z) :
  arg <> [] ->
  (numeric v -> formatNumber v [] = (addThousandsSep (fmt.FormatFixed 0 (float_of v)), None))
  /\ (strconv.Atoi arg = None ->
      (exists e, formatNumber v arg = ([], Some e))
      /\ (numeric v -> formatNumber v arg = ([], Some (ENumberInvalidPrecision arg))))
  /\ (forall n, strconv.Atoi arg = Some n -> fmt.precision_ok n = true -> numeric v ->
        formatNumber v arg = (addThousandsSep (fmt.FormatFixed n (float_of v)), None)).
Proof.
  intros Harg. apply string_eqb_neq in Harg. split; [|split].
  - intros Hv. destruct v; try destruct Hv; reflexivity.
  - intros Ha. split.
    + unfold formatNumber. rewrite Harg, Ha.
      destruct v; try (eexists; reflexivity).
      destruct (strconv.ParseFloat _); eexists; reflexivity.
    + intros Hv. unfold formatNumber. rewrite Harg, Ha.
      destruct v; try destruct Hv; reflexivity.
  - intros n Ha Hn Hv. unfold formatNumber, Sprintf_prec_f. rewrite Harg, Ha.
    destruct v; try destruct Hv; simpl; rewrite Hn; reflexivity.
Qed.

Lemma T_loop_no_message (fuel : nat) reg c (b : Bundle) (key : list Z) args
    (ls : list (list Z)) :
  (forall lang msgs, In lang ls -> messages b !! lang = Some msgs -> msgs !! key = None) ->
  T_loop fuel reg c b ls key args = Done (key, c).
Proof.
  induction ls as [|lang ls IH]; intros H; simpl; [reflexivity|].
  destruct (messages b !! lang) as [msgs|] eqn:Hm.
  - rewrite (H lang msgs (or_introl eq_refl) Hm). apply IH.
    intros lang' msgs' Hin. apply H. right. exact Hin.
  - apply IH. intros lang' msgs' Hin. apply H. right. exact Hin.
Qed.

Lemma T_loop_app (fuel : nat) reg c (b : Bundle) (key : list Z) args
    (pre ls : list (list Z)) :
  (forall lang msgs, In lang pre -> messages b !! lang = Some msgs -> msgs !! key = None) ->
  T_loop fuel reg c b (pre ++ ls) key args = T_loop fuel reg c b ls key args.
Proof.
  induction pre as [|lang pre IH]; intros H; simpl; [reflexivity|].
  destruct (messages b !! lang) as [msgs|] eqn:Hm.
  - rewrite (H lang msgs (or_introl eq_refl) Hm). apply IH.
    intros lang' msgs' Hin. apply H. right. exact Hin.
  - apply IH. intros lang' msgs' Hin. apply H. right. exact Hin.
Qed.

(** C10.  [Locale.T] returns the key when the locale has no bundle,
    and when no language of its chain has a message for the key.
    Otherwise the message of the first language that has one is
    rendered: [T] returns the text rendered when the render returns no
    error, and the message itself, unchanged, when it returns one. *)
Theorem C10_T_falls_back (fuel : nat) reg c (l : Locale) (key : list Z) args :
  (bundle l = None -> T fuel reg c l key args = Done (key, c))
  /\ (forall b, bundle l = Some b ->
        (forall lang msgs, In lang (langs l) -> messages b !! lang = Some msgs ->
                           msgs !! key = None) ->
        T fuel reg c l key args = Done (key, c))
  /\ (forall b pre lang post msgs text,
        bundle l = Some b -> langs l = pre ++ lang :: post ->
        (forall lang' msgs', In lang' pre -> messages b !! lang' = Some msgs' ->
                             msgs' !! key = None) ->
        messages b !! lang = Some msgs -> msgs !! key = Some text ->
        T fuel reg c l key args
        = match RenderTemplate fuel reg c text args with
          | Done (res, None, c') => Done (res, c')
          | Done (_, Some _, c') => Done (text, c')
          | Panic pn => Panic pn
          | OutOfFuel => OutOfFuel
          end).
Proof.
  unfold T. split; [|split].
  - intros ->. reflexivity.
  - intros b -> H. apply T_loop_no_message, H.
  - intros b pre lang post msgs text -> -> Hpre Hm Hk.
    rewrite T_loop_app by exact Hpre. simpl. rewrite Hm, Hk.
    destruct (RenderTemplate fuel reg c text args) as [[[res [e|]] c']| |]; reflexivity.
Qed.

(** Whatever the runtime: the error of a node that fails before the
    unresolved placeholder is the one returned. *)
Lemma error_of_first_failing_node :
  RenderTemplate 1 init_registry ∅ tpl_bogus [(gs "a", VInt 1)]
  = Done ([], Some (EUnknownFormatter (gs "bogus")), <[tpl_bogus := ast_bogus]> ∅).
Proof. by_eval. Qed.

(** Whatever the runtime: [formatNumber] returns no error on a number
    when [Atoi] reads the precision, negative or not. *)
Lemma formatNumber_integer_precision (v : value) (arg : list Z) (n : Z) :
  numeric v -> strconv.Atoi arg = Some n -> snd (formatNumber v arg) = None.
Proof.
  intros Hv Ha. unfold formatNumber. rewrite Ha.
  destruct v; try destruct Hv; destruct (string_eqb arg []); reflexivity.
Qed.

End Claims.

(** ** Closed instances *)

(** C4 as stated fails: the AST of "{a|bogus}{missing}" has a placeholder
    whose path does not resolve, and the render fails with the error of
    the unknown formatter of the node before it. *)
Lemma C4_counterexample :
  ParseTemplate tpl_bogus = Done (ast_bogus, None)
  /\ getValueByPath (L := ascii_lib) [(gs "a", VInt 1)] (gs "missing") = Done (VNil, false)
  /\ RenderTemplate (L := ascii_lib) 1 (init_registry (L := ascii_lib)) ∅ tpl_bogus [(gs "a", VInt 1)]
     = Done ([], Some (EUnknownFormatter (gs "bogus")), <[tpl_bogus := ast_bogus]> ∅).
Proof. split; [|split]; by_eval. Qed.

(** C7 as stated fails: "{|upper}" parses to a placeholder node whose
    path is empty. *)
Lemma C7_counterexample :
  ParseTemplate (gs "{|upper}") = Done (ast_empty_path, None).
Proof. by_eval. Qed.

(** C8 as stated fails: the pipe inside the nested brace pair splits the
    inner text; the false branch is cut to "{x" and "upper}" becomes a
    formatter of the outer placeholder. *)
Lemma C8_counterexample :
  parsePlaceholder (gs "n|eq:0?none:{x|upper}") = (Some node_nested_pipe, None)
  /\ ParseTemplate (gs "{n|eq:0?none:{x|upper}}") = Done ([Placeholder node_nested_pipe], None).
Proof. split; by_eval. Qed.

(** C9 as stated fails: "-1" is no non-negative integer, [Atoi] reads it
    and [formatNumber] returns no error. *)
Lemma C9_counterexample :
  strconv.Atoi (gs "-1") = Some (-1)
  /\ snd (formatNumber (L := ascii_lib) (VInt 1) (gs "-1")) = None.
Proof. split; by_eval. Qed.

(** The hypotheses of the theorems above hold of concrete inputs. *)

Lemma C1_witness :
  let p := {| Path := gs "count"; Formatters := [];
              Cond := Some {| Op := gs "eq"; TestValue := gs "0";
                              TrueExpr := gs "No items";
                              FalseExpr := gs "{count} items" |} |} in
  let cond := {| Op := gs "eq"; TestValue := gs "0"; TrueExpr := gs "No items";
                 FalseExpr := gs "{count} items" |} in
  let args := [(gs "count", VInt 0)] in
  Cond p = Some cond
  /\ getValueByPath (L := ascii_lib) args (Path p) = Done (VInt 0, true)
  /\ apply_formatters (init_registry (L := ascii_lib)) (Formatters p) (VInt 0) = (VInt 0, None)
  /\ compareValues (VInt 0) (Op cond) (TestValue cond) = (true, None)
  /\ Node_Eval (L := ascii_lib)
       (RenderTemplate (L := ascii_lib) 1 (init_registry (L := ascii_lib)))
       (init_registry (L := ascii_lib)) ∅ (Placeholder p) args
     = RenderTemplate (L := ascii_lib) 1 (init_registry (L := ascii_lib)) ∅
         (gs "No items") args.
Proof.
  intros p cond args.
  assert (H1 : Cond p = Some cond) by reflexivity.
  assert (H2 : getValueByPath (L := ascii_lib) args (Path p) = Done (VInt 0, true))
    by (vm_compute; reflexivity).
  assert (H3 : apply_formatters (init_registry (L := ascii_lib)) (Formatters p) (VInt 0)
               = (VInt 0, None)) by reflexivity.
  assert (H4 : compareValues (VInt 0) (Op cond) (TestValue cond) = (true, None))
    by (vm_compute; reflexivity).
  repeat (split; [assumption|]).
  exact (proj1 (C1_conditional_renders_chosen_branch (L := ascii_lib) 1
                  (init_registry (L := ascii_lib)) ∅ p cond args (VInt 0) (VInt 0) true
                  H1 H2 H3 H4)).
Defined.

Lemma C4_witness :
  let p := {| Path := gs "user.missing"; Formatters := []; Cond := None |} in
  let args := [(gs "user", VMap [])] in
  getValueByPath (L := ascii_lib) args (Path p) = Done (VNil, false)
  /\ forall fuel (s : list Z) (c' : gmap (list Z) (list Node)),
       RenderTemplate (L := ascii_lib) fuel (init_registry (L := ascii_lib)) ∅
         tpl_missing args <> Done (s, None, c').
Proof.
  intros p args.
  assert (H : getValueByPath (L := ascii_lib) args (Path p) = Done (VNil, false))
    by (vm_compute; reflexivity).
  split; [exact H|]. intros fuel.
  refine (proj1 (proj2 (C4_value_not_found_aborts (L := ascii_lib)
                          (init_registry (L := ascii_lib)) args p VNil H))
                fuel ∅ tpl_missing ast_missing _ _ _).
  - intros tpl ast Hl. rewrite lookup_empty in Hl. discriminate.
  - vm_compute; reflexivity.
  - left; reflexivity.
Defined.

Lemma C6_witness :
  let c1 : gmap (list Z) (list Node) := <[tpl_items := ast_items]> ∅ in
  let args := [(gs "count", VInt 0)] in
  cache_wf c1 /\ cache_wf ∅
  /\ result_of (RenderTemplate (L := ascii_lib) 2 (init_registry (L := ascii_lib)) c1
                  tpl_items args)
     = result_of (RenderTemplate (L := ascii_lib) 2 (init_registry (L := ascii_lib)) ∅
                    tpl_items args).
Proof.
  intros c1 args.
  assert (H2 : cache_wf ∅).
  { intros tpl ast Hl. rewrite lookup_empty in Hl. discriminate. }
  assert (H1 : cache_wf c1).
  { intros tpl ast. unfold c1. rewrite lookup_insert. case_decide as Heq.
    - subst tpl. simpl. intros [= <-]. vm_compute; reflexivity.
    - rewrite lookup_empty. discriminate. }
  split; [exact H1|]. split; [exact H2|].
  exact (proj1 (proj2 (C6_cache_preserves_rendering (L := ascii_lib) 2
                         (init_registry (L := ascii_lib)) c1 ∅ tpl_items args H1 H2))).
Defined.

Lemma C7_witness :
  let p := {| Path := []; Formatters := [{| Name := gs "upper"; Arg := [] |}];
              Cond := None |} in
  ParseTemplate (gs "{|upper}") = Done (ast_empty_path, None)
  /\ In (Placeholder p) ast_empty_path
  /\ exists raw,
       parsePlaceholder raw = (Some p, None)
       /\ strings.TrimSpace raw <> []
       /\ Path p = strings.TrimSpace (nth_str (strings.Split (strings.TrimSpace raw) 124) 0).
Proof.
  intros p.
  assert (H1 : ParseTemplate (gs "{|upper}") = Done (ast_empty_path, None))
    by (vm_compute; reflexivity).
  assert (H2 : In (Placeholder p) ast_empty_path) by (left; reflexivity).
  split; [exact H1|]. split; [exact H2|].
  exact (proj1 (C7_placeholder_path (gs "{|upper}") ast_empty_path p H1 H2)).
Defined.

Lemma C8_witness :
  ParseTemplate (gs "{n|eq:0?none:{x|upper}}") = Done ([Placeholder node_nested_pipe], None)
  /\ In (Placeholder node_nested_pipe) [Placeholder node_nested_pipe]
  /\ no_pipe_node node_nested_pipe.
Proof.
  assert (H1 : ParseTemplate (gs "{n|eq:0?none:{x|upper}}")
               = Done ([Placeholder node_nested_pipe], None)) by (vm_compute; reflexivity).
  assert (H2 : In (Placeholder node_nested_pipe) [Placeholder node_nested_pipe])
    by (left; reflexivity).
  split; [exact H1|]. split; [exact H2|].
  exact (C8_no_pipe_survives (gs "{n|eq:0?none:{x|upper}}") [Placeholder node_nested_pipe]
           node_nested_pipe H1 H2).
Defined.

Lemma C9_witness :
  gs "2x" <> []
  /\ strconv.Atoi (gs "2x") = None
  /\ formatNumber (L := ascii_lib) (VInt 1) (gs "2x")
     = ([], Some (ENumberInvalidPrecision (gs "2x"))).
Proof.
  assert (H : gs "2x" <> []) by (vm_compute; discriminate).
  assert (Ha : strconv.Atoi (gs "2x") = None) by (vm_compute; reflexivity).
  split; [exact H|]. split; [exact Ha|].
  exact (proj2 (proj1 (proj2 (C9_number_precision (L := ascii_lib) (VInt 1) (gs "2x") H)) Ha) I).
Defined.

(** [Locale.T] on a bundle with two messages: a message that renders, a
    message whose render fails, a key with no message, a locale with no
    bundle. *)
Lemma T_examples :
  let l := Bundle_Locale example_bundle (gs "fr") in
  let reg := init_registry (L := ascii_lib) in
  langs l = [gs "fr"; gs "en"]
  /\ result_of (T (L := ascii_lib) 1 reg ∅ l (gs "hello") [(gs "name", VString (gs "Tom"))])
     = Done (gs "Hi Tom")
  /\ result_of (T (L := ascii_lib) 1 reg ∅ l (gs "bad") [(gs "x", VInt 1)])
     = Done (gs "{x|bogus}")
  /\ result_of (T (L := ascii_lib) 1 reg ∅ l (gs "absent") []) = Done (gs "absent")
  /\ result_of (T (L := ascii_lib) 1 reg ∅ {| bundle := None; langs := [gs "en"] |}
                  (gs "hello") [])
     = Done (gs "hello").
Proof. intros l reg. split; [|split; [|split; [|split]]]; by_eval. Qed.

Lemma C2_witness :
  let tpl := gs "a{b}{c" in
  (4 < length tpl)%nat
  /\ rune_at tpl 4 = 123
  /\ fst (scan_braces (drop 5 tpl) 1 5) <> 0
  /\ parse_loop 2 tpl 4 [TextNode (gs "a")] []
     = parse_loop 1 tpl 5 [TextNode (gs "a")] (gs "{").
Proof.
  intros tpl.
  assert (H1 : (4 < length tpl)%nat) by (vm_compute; lia).
  assert (H2 : rune_at tpl 4 = 123) by reflexivity.
  assert (H3 : fst (scan_braces (drop 5 tpl) 1 5) <> 0) by (vm_compute; discriminate).
  split; [exact H1|]. split; [exact H2|]. split; [exact H3|].
  exact (proj1 (proj2 (C2_parse_total_and_tolerant (L := ascii_lib) tpl))
           1%nat 4%nat [TextNode (gs "a")] [] H1 H2 H3).
Defined.

Lemma C10_witness :
  let l := Bundle_Locale example_bundle (gs "fr") in
  let reg := init_registry (L := ascii_lib) in
  let args := [(gs "x", VInt 1)] in
  bundle l = Some example_bundle
  /\ langs l = [gs "fr"] ++ gs "en" :: []
  /\ messages example_bundle !! gs "fr" = None
  /\ (exists msgs, messages example_bundle !! gs "en" = Some msgs
                   /\ msgs !! gs "bad" = Some (gs "{x|bogus}"))
  /\ T (L := ascii_lib) 1 reg ∅ l (gs "bad") args
     = match RenderTemplate (L := ascii_lib) 1 reg ∅ (gs "{x|bogus}") args with
       | Done (res, None, c') => Done (res, c')
       | Done (_, Some _, c') => Done (gs "{x|bogus}", c')
       | Panic pn => Panic pn
       | OutOfFuel => OutOfFuel
       end.
Proof.
  intros l reg args.
  assert (H1 : bundle l = Some example_bundle) by reflexivity.
  assert (H2 : langs l = [gs "fr"] ++ gs "en" :: []) by (vm_compute; reflexivity).
  assert (H3 : messages example_bundle !! gs "fr" = None) by (vm_compute; reflexivity).
  assert (H4 : messages example_bundle !! gs "en"
               = Some (<[gs "hello" := gs "Hi {name}"]> (<[gs "bad" := gs "{x|bogus}"]> ∅)))
    by (vm_compute; reflexivity).
  assert (H5 : (<[gs "hello" := gs "Hi {name}"]> (<[gs "bad" := gs "{x|bogus}"]> ∅)
                : gmap (list Z) (list Z)) !! gs "bad" = Some (gs "{x|bogus}"))
    by (vm_compute; reflexivity).
  split; [exact H1|]. split; [exact H2|]. split; [exact H3|].
  split; [eexists; split; [exact H4 | exact H5]|].
  refine (proj2 (proj2 (C10_T_falls_back (L := ascii_lib) 1 reg ∅ l (gs "bad") args))
            example_bundle [gs "fr"] (gs "en") [] _ (gs "{x|bogus}") H1 H2 _ H4 H5).
  intros lang' msgs' [<-|[]] Hm. rewrite H3 in Hm. discriminate.
Defined.

(** * More of the code *)

(** ** The template parser, continued *)

Lemma scan_braces_le (rest : list Z) :
  forall depth j, (snd (scan_braces rest depth j) <= j + length rest)%nat.
Proof.
  induction rest as [|r rest IH]; simpl; intros depth j; [lia|].
  destruct (0 <? depth); simpl; [|lia].
  etransitivity; [apply IH|]. lia.
Qed.

Lemma scan_braces_closed (rest : list Z) (depth : Z) (j : nat) :
  0 < depth -> fst (scan_braces rest depth j) = 0 ->
  (j < snd (scan_braces rest depth j))%nat.
Proof.
  destruct rest as [|r rest]; simpl; [lia|].
  destruct (Z.ltb_spec 0 depth); [|lia]. intros _ _.
  eapply Nat.lt_le_trans; [|apply scan_braces_ge]. lia.
Qed.

(** What holds of every text node that is not empty and of every
    placeholder accepted from a span of the input holds of every node of
    the AST. *)
Lemma parse_loop_invariant (Q : Node -> Prop) (runes : list Z) :
  (forall t, t <> [] -> Q (TextNode t)) ->
  (forall raw p, (length raw + 2 <= length runes)%nat ->
                 parsePlaceholder raw = (Some p, None) -> Q (Placeholder p)) ->
  forall fuel i nodes buf ast, Forall Q nodes ->
    parse_loop fuel runes i nodes buf = Done ast -> Forall Q ast.
Proof.
  intros Ht Hp.
  assert (Hflush : forall nodes buf, Forall Q nodes -> Forall Q (fst (flush nodes buf))).
  { intros nodes buf H. destruct buf as [|r buf]; simpl; [exact H|].
    apply Forall_app; split; [exact H|]. repeat constructor. apply Ht. discriminate. }
  intros fuel. induction fuel as [|fuel IH]; intros i nodes buf ast Hn.
  - simpl. destruct (i <? length runes)%nat; [discriminate|].
    intros [= <-]. apply Hflush, Hn.
  - rewrite parse_loop_S.
    destruct (Nat.ltb_spec i (length runes)) as [Hi|Hi];
      [|intros [= <-]; apply Hflush, Hn].
    destruct (negb (rune_at runes i =? 123)); [apply IH, Hn|].
    pose proof (Hflush nodes buf Hn) as Hn1.
    destruct (flush nodes buf) as [nodes1 buf1]; simpl in Hn1.
    pose proof (scan_braces_le (drop (S i) runes) 1 (S i)) as Hj.
    pose proof (scan_braces_closed (drop (S i) runes) 1 (S i) ltac:(lia)) as Hj'.
    rewrite length_drop in Hj.
    destruct (scan_braces (drop (S i) runes) 1 (S i)) as [depth j]; simpl in Hj, Hj'.
    destruct (Z.eqb_spec depth 0) as [Hd|Hd]; simpl negb; cbv iota; [|apply IH, Hn1].
    specialize (Hj' Hd).
    destruct (parsePlaceholder (slice runes (S i) (j - 1))) as [[ph|] [err|]] eqn:Hph;
      try (apply IH, Hn1).
    pose proof (Hflush nodes1 buf1 Hn1) as Hn2.
    destruct (flush nodes1 buf1) as [nodes2 buf2]; simpl in Hn2.
    apply IH. apply Forall_app; split; [exact Hn2|].
    repeat constructor. apply (Hp (slice runes (S i) (j - 1))); [|exact Hph].
    unfold slice. rewrite length_take, length_drop. lia.
Qed.

Lemma ParseTemplate_invariant (Q : Node -> Prop) (tpl : list Z) (ast : list Node) :
  (forall t, t <> [] -> Q (TextNode t)) ->
  (forall raw p, (length raw + 2 <= length tpl)%nat ->
                 parsePlaceholder raw = (Some p, None) -> Q (Placeholder p)) ->
  ParseTemplate tpl = Done (ast, None) -> Forall Q ast.
Proof.
  intros Ht Hp. unfold ParseTemplate.
  destruct (parse_loop (length tpl) tpl 0 [] []) as [nodes| |] eqn:H; simpl; try discriminate.
  intros [= <-]. eapply (parse_loop_invariant Q tpl Ht Hp); [|exact H]. constructor.
Qed.

(** X1.  No text node of a parsed template is empty. *)
Theorem X1_text_nodes_not_empty (tpl : list Z) (ast : list Node) :
  ParseTemplate tpl = Done (ast, None) -> ~ In (TextNode []) ast.
Proof.
  intros H Hin.
  pose proof (ParseTemplate_invariant (fun n => n <> TextNode []) tpl ast) as Hinv.
  rewrite List.Forall_forall in Hinv.
  apply (Hinv ltac:(intros t Ht [= ->]; contradiction) ltac:(discriminate) H _ Hin).
  reflexivity.
Qed.

Lemma rune_at_Forall (P : Z -> Prop) (runes : list Z) (i : nat) :
  Forall P runes -> (i < length runes)%nat -> P (rune_at runes i).
Proof.
  intros H Hi. destruct (lookup_lt_is_Some_2 runes i Hi) as [x Hx].
  unfold rune_at. rewrite (nth_lookup_Some _ _ _ _ Hx).
  rewrite List.Forall_forall in H. apply H. apply list_elem_of_In.
  eapply list_elem_of_lookup_2, Hx.
Qed.

Lemma parse_loop_plain (runes : list Z) :
  Forall (fun r => r <> 123) runes ->
  forall fuel i nodes buf, (length runes - i <= fuel)%nat ->
    parse_loop fuel runes i nodes buf = Done (fst (flush nodes (buf ++ drop i runes))).
Proof.
  intros Hr fuel. induction fuel as [|fuel IH]; intros i nodes buf Hfuel.
  - rewrite parse_loop_end by lia. rewrite drop_ge, app_nil_r by lia. reflexivity.
  - rewrite parse_loop_S. destruct (Nat.ltb_spec i (length runes)) as [Hi|Hi].
    + pose proof (rune_at_Forall _ runes i Hr Hi) as Hne. simpl in Hne.
      destruct (Z.eqb_spec (rune_at runes i) 123); [contradiction|]. simpl negb. cbv iota.
      rewrite IH by lia. rewrite (drop_rune_at runes i Hi), <- app_assoc. reflexivity.
    + rewrite drop_ge, app_nil_r by lia. reflexivity.
Qed.

(** X2.  A text with no opening brace parses to one text node holding
    the whole text, and the empty text to the empty AST. *)
Theorem X2_plain_text_one_node (tpl : list Z) :
  Forall (fun r => r <> 123) tpl ->
  ParseTemplate tpl = Done (match tpl with [] => [] | _ :: _ => [TextNode tpl] end, None).
Proof.
  intros H. unfold ParseTemplate. rewrite (parse_loop_plain tpl H) by lia.
  simpl. rewrite drop_0. destruct tpl; reflexivity.
Qed.

Lemma X2_witness :
  Forall (fun r => r <> 123) (gs "plain text")
  /\ ParseTemplate (gs "plain text") = Done ([TextNode (gs "plain text")], None).
Proof.
  assert (H : Forall (fun r => r <> 123) (gs "plain text"))
    by (vm_compute; repeat constructor; discriminate).
  split; [exact H|]. exact (X2_plain_text_one_node (gs "plain text") H).
Defined.

Lemma X1_witness :
  ParseTemplate (gs "a{}b") = Done ([TextNode (gs "a"); TextNode (gs "{}b")], None)
  /\ ~ In (TextNode []) [TextNode (gs "a"); TextNode (gs "{}b")].
Proof.
  assert (H : ParseTemplate (gs "a{}b")
              = Done ([TextNode (gs "a"); TextNode (gs "{}b")], None))
    by (vm_compute; reflexivity).
  split; [exact H|]. exact (X1_text_nodes_not_empty (gs "a{}b") _ H).
Defined.

(** ** Splitting *)

Lemma Split_no_sep (s : list Z) (sep : Z) :
  Forall (fun r => r <> sep) s -> strings.Split s sep = [s].
Proof.
  induction s as [|r s IH]; simpl; intros H; [reflexivity|].
  inversion H as [|? ? Hr Hs]; subst.
  destruct (Z.eqb_spec r sep); [contradiction|]. rewrite IH by exact Hs. reflexivity.
Qed.

Lemma Split_app (a b : list Z) (sep : Z) :
  strings.Split (a ++ sep :: b) sep = strings.Split a sep ++ strings.Split b sep.
Proof.
  induction a as [|r a IH]; simpl.
  - rewrite Z.eqb_refl. reflexivity.
  - destruct (r =? sep); [rewrite IH; reflexivity|].
    rewrite IH. pose proof (Split_nonempty a sep) as Hne.
    destruct (strings.Split a sep); [contradiction | reflexivity].
Qed.

Lemma SplitN2_no_sep (s : list Z) (sep : Z) :
  Forall (fun r => r <> sep) s -> strings.SplitN2 s sep = [s].
Proof.
  induction s as [|r s IH]; simpl; intros H; [reflexivity|].
  inversion H as [|? ? Hr Hs]; subst.
  destruct (Z.eqb_spec r sep); [contradiction|]. rewrite IH by exact Hs. reflexivity.
Qed.

Lemma SplitN2_app (a b : list Z) (sep : Z) :
  Forall (fun r => r <> sep) a -> strings.SplitN2 (a ++ sep :: b) sep = [a; b].
Proof.
  induction a as [|r a IH]; simpl; intros H.
  - rewrite Z.eqb_refl. reflexivity.
  - inversion H as [|? ? Hr Ha]; subst.
    destruct (Z.eqb_spec r sep); [contradiction|]. rewrite IH by exact Ha. reflexivity.
Qed.

Lemma SplitN2_cases (s : list Z) (sep : Z) :
  (strings.SplitN2 s sep = [s] /\ Forall (fun r => r <> sep) s)
  \/ (exists a b, strings.SplitN2 s sep = [a; b] /\ s = a ++ sep :: b
                  /\ Forall (fun r => r <> sep) a).
Proof.
  induction s as [|r s IH]; simpl.
  - left. split; [reflexivity | constructor].
  - destruct (Z.eqb_spec r sep) as [->|Hne].
    + right. exists [], s. repeat split. constructor.
    + destruct IH as [[-> Hs]|(a & b & -> & -> & Ha)].
      * left. split; [reflexivity | constructor; assumption].
      * right. exists (r :: a), b. repeat split. constructor; assumption.
Qed.

Lemma ParseTemplate_one_span (raw : list Z) :
  no_brace raw ->
  ParseTemplate (123 :: raw ++ [125])
  = Done (match parsePlaceholder raw with
          | (_, Some _) => [TextNode (123 :: raw ++ [125])]
          | (Some ph, None) => [Placeholder ph]
          | (None, None) => []
          end, None).
Proof.
  intros Hraw. unfold ParseTemplate.
  change (length (123 :: raw ++ [125])) with (S (length (raw ++ [125]))).
  rewrite parse_loop_S. simpl length.
  change (0 <? S (length (raw ++ [125%Z])))%nat with true.
  change (rune_at (123 :: raw ++ [125]) 0) with 123. simpl negb. cbv iota.
  change (flush [] []) with (@nil Node, @nil Z). cbv iota.
  change (drop 1 (123 :: raw ++ [125])) with (raw ++ [125]).
  rewrite scan_braces_close by assumption. simpl negb. cbv iota.
  assert (Hs : slice (123 :: raw ++ [125]) 1 (1 + length raw + 1 - 1) = raw).
  { unfold slice. change (drop 1 (123 :: raw ++ [125])) with (raw ++ [125]).
    apply take_app_length'. lia. }
  rewrite Hs.
  destruct (parsePlaceholder raw) as [[ph|] [e|]]; cbv beta iota;
    try change (flush [] []) with (@nil Node, @nil Z); cbv beta iota;
    rewrite parse_loop_end by (simpl; rewrite length_app; simpl; lia); reflexivity.
Qed.

Section MoreEngine.

Context {L : GoLib}.

Implicit Types (reg : gmap (list Z) FormatterFunc) (c : gmap (list Z) (list Node)).
Implicit Types (args : list (list Z * value)).

(** X3.  A template made of one placeholder that is only a key (not
    empty, with no space at either end, no brace, pipe or dot) parses to
    that placeholder and renders, from the empty cache, to the text of
    the value the bag has for the key, and fails with the value-not-found
    error when the bag has none. *)
Theorem X3_key_substitution (key : list Z) reg args (fuel : nat) :
  key <> [] -> strings.TrimSpace key = key ->
  Forall (fun r => r <> 123 /\ r <> 125) key ->
  Forall (fun r => r <> 124) key -> Forall (fun r => r <> 46) key ->
  let ast := [Placeholder {| Path := key; Formatters := []; Cond := None |}] in
  ParseTemplate (123 :: key ++ [125]) = Done (ast, None)
  /\ RenderTemplate (S fuel) reg ∅ (123 :: key ++ [125]) args
     = Done (match map_lookup args key with
             | Some v => (Sprint v, None)
             | None => ([], Some (EValueNotFound key))
             end, <[123 :: key ++ [125] := ast]> ∅).
Proof.
  intros Hne Htrim Hbrace Hpipe Hdot ast.
  assert (Hp : parsePlaceholder key
               = (Some {| Path := key; Formatters := []; Cond := None |}, None)).
  { unfold parsePlaceholder. rewrite Htrim.
    destruct (string_eqb key []) eqn:He; [apply string_eqb_eq in He; contradiction|].
    rewrite (Split_no_sep key 124 Hpipe). simpl. unfold nth_str. simpl.
    rewrite Htrim. reflexivity. }
  assert (Hparse : ParseTemplate (123 :: key ++ [125]) = Done (ast, None)).
  { rewrite (ParseTemplate_one_span key Hbrace), Hp. reflexivity. }
  split; [exact Hparse|].
  rewrite (RenderTemplate_S fuel reg ∅ _ args ast cache_wf_empty Hparse).
  unfold TemplateAST_Eval, ast. simpl. unfold PlaceholderNode_Eval, getValueByPath. simpl.
  rewrite (Split_no_sep key 46 Hdot). simpl.
  destruct (map_lookup args key) as [v|]; reflexivity.
Qed.

End MoreEngine.

Lemma X3_witness :
  gs "name" <> [] /\ strings.TrimSpace (gs "name") = gs "name"
  /\ RenderTemplate (L := ascii_lib) 1 (init_registry (L := ascii_lib)) ∅ (gs "{name}")
       [(gs "name", VString (gs "Tom"))]
     = Done (gs "Tom", None,
             <[gs "{name}" := [Placeholder {| Path := gs "name"; Formatters := [];
                                              Cond := None |}]]> ∅).
Proof.
  assert (H1 : gs "name" <> []) by (vm_compute; discriminate).
  assert (H2 : strings.TrimSpace (gs "name") = gs "name") by (vm_compute; reflexivity).
  assert (H3 : Forall (fun r => r <> 123 /\ r <> 125) (gs "name"))
    by (vm_compute; repeat constructor; discriminate).
  assert (H4 : Forall (fun r => r <> 124) (gs "name"))
    by (vm_compute; repeat constructor; discriminate).
  assert (H5 : Forall (fun r => r <> 46) (gs "name"))
    by (vm_compute; repeat constructor; discriminate).
  split; [exact H1|]. split; [exact H2|].
  exact (proj2 (X3_key_substitution (L := ascii_lib) (gs "name")
                  (init_registry (L := ascii_lib)) [(gs "name", VString (gs "Tom"))] 0
                  H1 H2 H3 H4 H5)).
Defined.

(** ** The placeholder parser, continued *)

(** X4.  [parseConditional] accepts exactly the texts of the shape
    [op:test?true:false]: a first question mark, a colon before it and a
    colon after it.  The operator is the text before the first colon,
    the test value runs to the first question mark, the true branch to
    the next colon, and the false branch is all the rest (colons and
    question marks included), each trimmed. *)
Theorem X4_parseConditional_shape (expr : list Z) (cond : Conditional) :
  parseConditional expr = (Some cond, None)
  <-> exists op test t f,
        expr = op ++ 58 :: test ++ 63 :: t ++ 58 :: f
        /\ Forall (fun r => r <> 58) op /\ Forall (fun r => r <> 63) op
        /\ Forall (fun r => r <> 63) test /\ Forall (fun r => r <> 58) t
        /\ cond = {| Op := strings.TrimSpace op; TestValue := strings.TrimSpace test;
                     TrueExpr := strings.TrimSpace t; FalseExpr := strings.TrimSpace f |}.
Proof.
  split.
  - unfold parseConditional.
    destruct (SplitN2_cases expr 63) as [[-> _]|(a & b & -> & -> & Ha)]; [discriminate|].
    simpl. unfold nth_str. simpl.
    destruct (SplitN2_cases b 58) as [[-> _]|(t & f & -> & -> & Ht)]; [discriminate|].
    simpl.
    destruct (SplitN2_cases a 58) as [[-> _]|(op & test & -> & -> & Hop)]; [discriminate|].
    simpl. intros [= <-].
    apply Forall_app in Ha. destruct Ha as [Hop63 Ht63]. inversion Ht63; subst.
    exists op, test, t, f. rewrite <- app_assoc. simpl. repeat split; assumption.
  - intros (op & test & t & f & -> & Hop & Hop63 & Htest & Ht & ->).
    unfold parseConditional.
    replace (op ++ 58 :: test ++ 63 :: t ++ 58 :: f)
      with ((op ++ 58 :: test) ++ 63 :: t ++ 58 :: f) by (rewrite <- app_assoc; reflexivity).
    rewrite SplitN2_app
      by (apply Forall_app; split; [exact Hop63 | constructor; [discriminate | exact Htest]]).
    simpl. unfold nth_str. simpl.
    rewrite (SplitN2_app t f 58 Ht), (SplitN2_app op test 58 Hop). reflexivity.
Qed.

Lemma X4_witness :
  parseConditional (gs "eq:0?No items:{count} items: x?")
  = (Some {| Op := gs "eq"; TestValue := gs "0"; TrueExpr := gs "No items";
             FalseExpr := gs "{count} items: x?" |}, None)
  /\ exists op test t f,
       gs "eq:0?No items:{count} items: x?" = op ++ 58 :: test ++ 63 :: t ++ 58 :: f
       /\ Forall (fun r => r <> 58) op /\ Forall (fun r => r <> 63) op
       /\ Forall (fun r => r <> 63) test /\ Forall (fun r => r <> 58) t
       /\ {| Op := gs "eq"; TestValue := gs "0"; TrueExpr := gs "No items";
             FalseExpr := gs "{count} items: x?" |}
          = {| Op := strings.TrimSpace op; TestValue := strings.TrimSpace test;
               TrueExpr := strings.TrimSpace t; FalseExpr := strings.TrimSpace f |}.
Proof.
  assert (H : parseConditional (gs "eq:0?No items:{count} items: x?")
              = (Some {| Op := gs "eq"; TestValue := gs "0"; TrueExpr := gs "No items";
                         FalseExpr := gs "{count} items: x?" |}, None))
    by (vm_compute; reflexivity).
  split; [exact H|].
  exact (proj1 (X4_parseConditional_shape _ _) H).
Defined.

Lemma parse_segments_classified (segs : list (list Z)) :
  forall ph p, parse_segments segs ph = (Some p, None) ->
    Formatters p
    = Formatters ph
      ++ map formatter_of (List.filter (fun s => negb (is_cond_segment s)) segs)
    /\ Cond p = match last (List.filter is_cond_segment segs) with
                | Some seg => fst (parseConditional (strings.TrimSpace seg))
                | None => Cond ph
                end.
Proof.
  induction segs as [|part rest IH]; intros ph p.
  - simpl. intros [= <-]. rewrite app_nil_r. split; reflexivity.
  - cbn [parse_segments List.filter].
    change (strings.Contains (strings.TrimSpace part) 63) with (is_cond_segment part).
    destruct (string_eqb (strings.TrimSpace part) []); [discriminate|].
    destruct (is_cond_segment part) eqn:Hc; cbn [negb map].
    + destruct (parseConditional (strings.TrimSpace part)) as [cond [err|]] eqn:Hpc;
        [discriminate|].
      intros H. apply IH in H. cbn [Formatters Cond] in H. destruct H as [Hf Hcond].
      split; [exact Hf|]. rewrite last_cons, Hcond.
      destruct (last (List.filter is_cond_segment rest)); [reflexivity|].
      rewrite Hpc. reflexivity.
    + unfold parseFormatterSegment at 1. cbv beta iota zeta.
      destruct (string_eqb _ []); [discriminate|].
      intros H. apply IH in H. cbn [Formatters Cond] in H. destruct H as [Hf Hcond].
      split; [|exact Hcond]. rewrite Hf, <- app_assoc. reflexivity.
Qed.

(** X5.  In a placeholder that parses, the formatter calls are the
    segments after the path that hold no question mark, in their order,
    and the conditional is the last segment that holds one: an earlier
    conditional is overwritten, and a formatter written after the
    conditional is in the chain all the same. *)
Theorem X5_segments_classified (expr : list Z) (p : PlaceholderNode) :
  parsePlaceholder expr = (Some p, None) ->
  let segs := tl (strings.Split (strings.TrimSpace expr) 124) in
  Formatters p = map formatter_of (List.filter (fun s => negb (is_cond_segment s)) segs)
  /\ Cond p = match last (List.filter is_cond_segment segs) with
              | Some seg => fst (parseConditional (strings.TrimSpace seg))
              | None => None
              end.
Proof.
  unfold parsePlaceholder.
  destruct (string_eqb (strings.TrimSpace expr) []); [discriminate|].
  destruct (length (strings.Split (strings.TrimSpace expr) 124) =? 0)%nat; [discriminate|].
  intros H. apply parse_segments_classified in H. exact H.
Qed.

Lemma X5_witness :
  let p := {| Path := gs "n";
              Formatters := [{| Name := gs "number"; Arg := gs "2" |};
                             {| Name := gs "upper"; Arg := [] |}];
              Cond := Some {| Op := gs "gt"; TestValue := gs "1";
                              TrueExpr := gs "c"; FalseExpr := gs "d" |} |} in
  parsePlaceholder (gs "n | eq:0?a:b | number:2 | gt:1?c:d | upper") = (Some p, None)
  /\ Formatters p
     = map formatter_of
         (List.filter (fun s => negb (is_cond_segment s))
            (tl (strings.Split
                   (strings.TrimSpace (gs "n | eq:0?a:b | number:2 | gt:1?c:d | upper")) 124))).
Proof.
  intros p.
  assert (H : parsePlaceholder (gs "n | eq:0?a:b | number:2 | gt:1?c:d | upper")
              = (Some p, None)) by (vm_compute; reflexivity).
  split; [exact H|].
  exact (proj1 (X5_segments_classified _ p H)).
Defined.

(** ** Lengths *)

Lemma trim_left_length (s : list Z) : (length (strings.trim_left s) <= length s)%nat.
Proof.
  induction s as [|r s IH]; simpl; [lia|]. destruct (unicode.IsSpace r); simpl; lia.
Qed.

Lemma TrimSpace_length (s : list Z) : (length (strings.TrimSpace s) <= length s)%nat.
Proof.
  unfold strings.TrimSpace. rewrite length_rev.
  etransitivity; [apply trim_left_length|]. rewrite length_rev. apply trim_left_length.
Qed.

Lemma SplitN2_length (s : list Z) (sep : Z) :
  Forall (fun p => (length p <= length s)%nat) (strings.SplitN2 s sep).
Proof.
  destruct (SplitN2_cases s sep) as [[-> _]|(a & b & -> & -> & _)].
  - repeat constructor.
  - rewrite length_app. simpl. repeat constructor; lia.
Qed.

Lemma Split_length (s : list Z) (sep : Z) :
  Forall (fun p => (length p <= length s)%nat) (strings.Split s sep).
Proof.
  induction s as [|r s IH]; simpl; [repeat constructor|].
  destruct (r =? sep).
  - constructor; [simpl; lia|]. eapply Forall_impl; [exact IH|]. simpl. intros; lia.
  - destruct (strings.Split s sep) as [|p ps] eqn:E;
      [exfalso; apply (Split_nonempty s sep E)|].
    inversion IH; subst. constructor; [simpl; lia|].
    eapply Forall_impl; [eassumption|]. simpl. intros; lia.
Qed.

Lemma nth_str_length (l : list (list Z)) (i n : nat) :
  Forall (fun p => (length p <= n)%nat) l -> (length (nth_str l i) <= n)%nat.
Proof.
  unfold nth_str. revert i. induction l as [|x l IH]; intros i H.
  - destruct i; simpl; lia.
  - inversion H; subst. destruct i; simpl; auto.
Qed.

Lemma parseConditional_length (expr : list Z) (cond : Conditional) :
  parseConditional expr = (Some cond, None) ->
  (length (TrueExpr cond) <= length expr)%nat /\ (length (FalseExpr cond) <= length expr)%nat.
Proof.
  unfold parseConditional.
  destruct (negb (length (strings.SplitN2 expr 63) =? 2)%nat); [discriminate|].
  destruct (negb (length (strings.SplitN2 (nth_str (strings.SplitN2 expr 63) 1) 58) =? 2)%nat);
    [discriminate|].
  destruct (negb (length (strings.SplitN2 (nth_str (strings.SplitN2 expr 63) 0) 58) =? 2)%nat);
    [discriminate|].
  intros [= <-]. simpl.
  pose proof (nth_str_length _ 1 _ (SplitN2_length expr 63)) as Hb.
  pose proof (SplitN2_length (nth_str (strings.SplitN2 expr 63) 1) 58) as Htf.
  split; (etransitivity; [apply TrimSpace_length|]);
    (etransitivity; [apply nth_str_length, Htf | exact Hb]).
Qed.

Lemma parse_segments_length (n : nat) (segs : list (list Z)) :
  forall ph p,
    Forall (fun s => (length s <= n)%nat) segs ->
    (forall cond, Cond ph = Some cond ->
       (length (TrueExpr cond) <= n)%nat /\ (length (FalseExpr cond) <= n)%nat) ->
    parse_segments segs ph = (Some p, None) ->
    forall cond, Cond p = Some cond ->
      (length (TrueExpr cond) <= n)%nat /\ (length (FalseExpr cond) <= n)%nat.
Proof.
  induction segs as [|part rest IH]; simpl; intros ph p Hsegs Hph.
  - intros [= <-]. exact Hph.
  - inversion Hsegs as [|? ? Hpart Hrest]; subst.
    destruct (string_eqb (strings.TrimSpace part) []); [discriminate|].
    destruct (strings.Contains (strings.TrimSpace part) 63).
    + destruct (parseConditional (strings.TrimSpace part)) as [cond [err|]] eqn:Hpc;
        [discriminate|].
      apply IH; [exact Hrest|]. simpl. intros cond' ->.
      apply parseConditional_length in Hpc. pose proof (TrimSpace_length part). lia.
    + destruct (string_eqb _ []); [discriminate|].
      apply IH; [exact Hrest|]. exact Hph.
Qed.

Lemma parsePlaceholder_length (raw : list Z) (p : PlaceholderNode) :
  parsePlaceholder raw = (Some p, None) ->
  forall cond, Cond p = Some cond ->
    (length (TrueExpr cond) <= length raw)%nat /\ (length (FalseExpr cond) <= length raw)%nat.
Proof.
  unfold parsePlaceholder.
  destruct (string_eqb (strings.TrimSpace raw) []); [discriminate|].
  destruct (length (strings.Split (strings.TrimSpace raw) 124) =? 0)%nat; [discriminate|].
  apply parse_segments_length; [|discriminate].
  pose proof (Split_length (strings.TrimSpace raw) 124) as H.
  pose proof (TrimSpace_length raw) as Ht.
  destruct (strings.Split (strings.TrimSpace raw) 124) as [|x l]; simpl; [constructor|].
  inversion H; subst. eapply Forall_impl; [eassumption|]. simpl. intros; lia.
Qed.

(** The branches of a conditional are cut from the inner text of its
    placeholder: they are shorter than the template. *)
Lemma ParseTemplate_branches_shorter (tpl : list Z) (ast : list Node) :
  ParseTemplate tpl = Done (ast, None) -> Forall (branches_shorter (length tpl)) ast.
Proof.
  apply ParseTemplate_invariant.
  - intros t _. exact I.
  - intros raw p Hlen Hp cond Hc.
    pose proof (parsePlaceholder_length raw p Hp cond Hc). lia.
Qed.

Section MoreEvaluation.

Context {L : GoLib}.

Implicit Types (reg : gmap (list Z) FormatterFunc) (c : gmap (list Z) (list Node)).
Implicit Types (render : render_fn) (args : list (list Z * value)).

Lemma resolve_loop_no_timeout (segs : list (list Z)) :
  forall current, resolve_loop segs current <> OutOfFuel.
Proof.
  induction segs as [|seg rest IH]; intros current; simpl; [discriminate|].
  assert (Hs : resolve_segment current seg <> OutOfFuel).
  { unfold resolve_segment.
    destruct current; try discriminate;
      repeat match goal with
             | |- context [match ?x with _ => _ end] => destruct x; try discriminate
             end. }
  destruct (resolve_segment current seg) as [[v|]| |]; simpl;
    [apply IH | discriminate | discriminate | contradiction].
Qed.

Lemma eval_nodes_no_timeout (n : nat) render reg args :
  (forall c (t : list Z), cache_wf c -> (length t < n)%nat ->
     render c t args <> OutOfFuel
     /\ forall r c', render c t args = Done (r, c') -> cache_wf c') ->
  forall (nodes : list Node), Forall (branches_shorter n) nodes ->
    forall c buf, cache_wf c -> eval_nodes render reg c nodes args buf <> OutOfFuel.
Proof.
  intros Hr nodes. induction nodes as [|node nodes IH]; intros Hn c buf Hc; simpl;
    [discriminate|].
  inversion Hn as [|? ? Hnode Hrest]; subst.
  destruct node as [t|p]; simpl; [apply IH; assumption|].
  unfold PlaceholderNode_Eval. unfold getValueByPath.
  pose proof (resolve_loop_no_timeout (strings.Split (Path p) 46) (VMap args)) as Hg.
  destruct (resolve_loop (strings.Split (Path p) 46) (VMap args)) as [[v ok]| |]; simpl;
    [|discriminate|contradiction].
  destruct ok; simpl; [|discriminate].
  destruct (apply_formatters reg (Formatters p) v) as [v' [e|]]; simpl; [discriminate|].
  simpl in Hnode.
  destruct (Cond p) as [cond|] eqn:Hcond; simpl; [|apply IH; assumption].
  destruct (compareValues v' (Op cond) (TestValue cond)) as [b [e|]]; simpl; [discriminate|]. destruct (Hnode cond eq_refl) as [Ht Hf].
  assert (Hb : forall t, (length t < n)%nat ->
    (let* (s, err, astCache) := render c t args in
     match err with
     | Some e => Done ([], Some e, astCache)
     | None => eval_nodes render reg astCache nodes args (buf ++ s)
     end) <> OutOfFuel).
  { intros t Hlt. destruct (Hr c t Hc Hlt) as [Hne Hwf].
    destruct (render c t args) as [[[s [e|]] c1]| |]; simpl;
      [discriminate | | discriminate | contradiction].
    apply IH; [assumption|]. eapply Hwf. reflexivity. }
  destruct b; apply Hb; assumption.
Qed.

(** X6.  Rendering terminates: from a cache that holds parsed templates
    only, a call of [RenderTemplate] with a depth budget larger than the
    length of the template never runs out of it, whatever the arguments
    and the registry, because the branch a conditional renders is
    shorter than the template it was cut from. *)
Theorem X6_render_terminates (fuel : nat) reg c (tpl : list Z) args :
  cache_wf c -> (length tpl < fuel)%nat ->
  RenderTemplate fuel reg c tpl args <> OutOfFuel.
Proof.
  revert c tpl. induction fuel as [|fuel IH]; intros c tpl Hc Hlen; [lia|].
  destruct (ParseTemplate_total tpl) as [ast Hp].
  rewrite (RenderTemplate_S fuel reg c tpl args ast Hc Hp).
  apply (eval_nodes_no_timeout (length tpl)).
  - intros c' t Hc' Ht. split; [apply IH; [exact Hc' | lia]|].
    intros r c'' Hr. pose proof (RenderTemplate_agrees fuel reg args c' t Hc') as Ha.
    rewrite Hr in Ha. apply Ha.
  - apply ParseTemplate_branches_shorter, Hp.
  - apply cache_wf_insert; assumption.
Qed.

Lemma eval_nodes_grows render reg args :
  (forall c (t : list Z) r c', render c t args = Done (r, c') -> c ⊆ c') ->
  forall (nodes : list Node) c buf r c',
    eval_nodes render reg c nodes args buf = Done (r, c') -> c ⊆ c'.
Proof.
  intros Hr nodes. induction nodes as [|node nodes IH]; intros c buf r c'; simpl.
  - intros [= <- <-]. reflexivity.
  - assert (Hn : forall s e c1, Node_Eval render reg c node args = Done (s, e, c1) -> c ⊆ c1).
    { destruct node as [t|p]; simpl; [intros s e c1 [= <- <- <-]; reflexivity|].
      unfold PlaceholderNode_Eval.
      destruct (getValueByPath args (Path p)) as [[v ok]| |]; simpl; try discriminate.
      destruct ok; simpl; [|intros s e c1 [= <- <- <-]; reflexivity].
      destruct (apply_formatters reg (Formatters p) v) as [v' [e|]];
        [intros s e' c1 [= <- <- <-]; reflexivity|].
      destruct (Cond p) as [cond|]; [|intros s e c1 [= <- <- <-]; reflexivity].
      destruct (compareValues v' (Op cond) (TestValue cond)) as [b [e|]];
        [intros s e' c1 [= <- <- <-]; reflexivity|].
      destruct b; intros s e c1; apply Hr. }
    destruct (Node_Eval render reg c node args) as [[[s [e|]] c1]| |]; simpl;
      try discriminate.
    + intros [= <- <-]. eapply Hn. reflexivity.
    + intros H. etransitivity; [eapply Hn; reflexivity | eapply IH, H].
Qed.

(** X7.  The cache only grows: after a call of [RenderTemplate] that
    returns, every entry the cache had is still there, unchanged, and
    the template rendered has an entry. *)
Theorem X7_cache_grows (fuel : nat) reg c (tpl : list Z) args
    (r : list Z * option error) (c' : gmap (list Z) (list Node)) :
  RenderTemplate fuel reg c tpl args = Done (r, c') ->
  c ⊆ c' /\ is_Some (c' !! tpl).
Proof.
  revert c tpl r c'. induction fuel as [|fuel IH]; intros c tpl r c'; [discriminate|].
  simpl. destruct (c !! tpl) as [ast|] eqn:Hl.
  - intros H. apply eval_nodes_grows in H; [|intros c0 t r0 c0' H0; apply (IH _ _ _ _ H0)].
    split; [exact H|]. exists ast. eapply lookup_weaken; eassumption.
  - destruct (ParseTemplate_total tpl) as [ast ->]. simpl.
    intros H. apply eval_nodes_grows in H; [|intros c0 t r0 c0' H0; apply (IH _ _ _ _ H0)].
    split.
    + etransitivity; [apply insert_subseteq, Hl | exact H].
    + exists ast. eapply lookup_weaken; [|exact H]. apply lookup_insert_eq.
Qed.

Lemma eval_nodes_buf render reg args (nodes : list Node) :
  forall c buf,
    eval_nodes render reg c nodes args buf
    = match eval_nodes render reg c nodes args [] with
      | Done (s, None, c') => Done (buf ++ s, None, c')
      | other => other
      end.
Proof.
  induction nodes as [|node nodes IH]; intros c buf; simpl.
  - rewrite app_nil_r. reflexivity.
  - destruct (Node_Eval render reg c node args) as [[[s [e|]] c1]| |]; simpl;
      try reflexivity.
    rewrite (IH c1 (buf ++ s)), (IH c1 s).
    destruct (eval_nodes render reg c1 nodes args []) as [[[s' [e|]] c2]| |];
      try reflexivity.
    rewrite app_assoc. reflexivity.
Qed.

Lemma eval_nodes_app_fail render reg args (a b : list Node) :
  forall c buf o,
    eval_nodes render reg c a args buf = o ->
    (forall s c1, o <> Done (s, None, c1)) ->
    eval_nodes render reg c (a ++ b) args buf = o.
Proof.
  induction a as [|node a IH]; intros c buf o; simpl.
  - intros <- H. exfalso. eapply H. reflexivity.
  - destruct (Node_Eval render reg c node args) as [[[s [e|]] c']| |]; simpl;
      try (intros; assumption).
    apply IH.
Qed.

(** X8.  Evaluating a sequence of nodes is evaluating its first part and
    then, from the cache that leaves, its second part: the texts are
    concatenated when both succeed, and the first failure (an error with
    the empty text, or a panic) is the result, what follows not being
    evaluated. *)
Theorem X8_eval_concat render reg c (a b : list Node) args :
  TemplateAST_Eval render reg c (a ++ b) args
  = match TemplateAST_Eval render reg c a args with
    | Done (s1, None, c1) =>
      match TemplateAST_Eval render reg c1 b args with
      | Done (s2, None, c2) => Done (s1 ++ s2, None, c2)
      | other => other
      end
    | other => other
    end.
Proof.
  unfold TemplateAST_Eval.
  destruct (eval_nodes render reg c a args []) as [[[s1 [e|]] c1]| |] eqn:Ha.
  - apply eval_nodes_app_fail; [exact Ha | discriminate].
  - rewrite (eval_nodes_app render reg args a b c [] s1 c1 Ha).
    apply eval_nodes_buf.
  - apply eval_nodes_app_fail; [exact Ha | discriminate].
  - apply eval_nodes_app_fail; [exact Ha | discriminate].
Qed.

End MoreEvaluation.

Lemma X6_witness :
  cache_wf ∅ /\ (length tpl_items < 36)%nat
  /\ RenderTemplate (L := ascii_lib) 36 (init_registry (L := ascii_lib)) ∅ tpl_items
       [(gs "count", VInt 5)] <> OutOfFuel.
Proof.
  assert (H1 : cache_wf ∅).
  { intros tpl ast Hl. rewrite lookup_empty in Hl. discriminate. }
  assert (H2 : (length tpl_items < 36)%nat) by (vm_compute; lia).
  split; [exact H1|]. split; [exact H2|].
  exact (X6_render_terminates (L := ascii_lib) 36 (init_registry (L := ascii_lib)) ∅
           tpl_items [(gs "count", VInt 5)] H1 H2).
Defined.

Lemma X7_witness :
  let c' : gmap (list Z) (list Node) :=
    <[gs "No items" := [TextNode (gs "No items")]]> (<[tpl_items := ast_items]> ∅) in
  RenderTemplate (L := ascii_lib) 2 (init_registry (L := ascii_lib)) ∅ tpl_items
    [(gs "count", VInt 0)] = Done (gs "No items", None, c')
  /\ ∅ ⊆ c' /\ is_Some (c' !! tpl_items).
Proof.
  intros c'.
  assert (H : RenderTemplate (L := ascii_lib) 2 (init_registry (L := ascii_lib)) ∅ tpl_items
                [(gs "count", VInt 0)] = Done (gs "No items", None, c')) by by_eval.
  split; [exact H|].
  exact (X7_cache_grows (L := ascii_lib) 2 (init_registry (L := ascii_lib)) ∅ tpl_items
           [(gs "count", VInt 0)] (gs "No items", None) c' H).
Defined.

(** ** The validator *)

Lemma net_depth_app (a b : list Z) : net_depth (a ++ b) = net_depth a + net_depth b.
Proof. induction a as [|r a IH]; simpl; [reflexivity|]. rewrite IH. lia. Qed.

Lemma take_snoc_le (A : Type) (pre : list A) (r : A) (n : nat) :
  (n <= length pre)%nat -> take n (pre ++ [r]) = take n pre.
Proof. intros H. apply take_app_le, H. Qed.

(** The loop of [checkBraces] after the prefix [pre]: [depth] is the net
    depth of [pre], and [firstOpen], when [depth] is positive, is the
    position of the brace that opened the group still open. *)
Lemma checkBraces_loop_spec (rs : list Z) :
  forall (pre : list Z) (depth firstOpen : Z),
    depth = net_depth pre ->
    (forall n, 0 <= net_depth (take n pre)) ->
    (0 < depth ->
     exists k, firstOpen = Z.of_nat k /\ pre !! k = Some 123
               /\ net_depth (take k pre) = 0
               /\ forall n, (k < n <= length pre)%nat -> 0 < net_depth (take n pre)) ->
    match checkBraces_loop rs (Z.of_nat (length pre)) depth firstOpen with
    | None => balanced (pre ++ rs)
    | Some (EExtraClosing p) =>
      exists k, p = Z.of_nat k /\ (pre ++ rs) !! k = Some 125
                /\ net_depth (take k (pre ++ rs)) = 0
                /\ forall n, (n <= k)%nat -> 0 <= net_depth (take n (pre ++ rs))
    | Some (EUnclosed p) =>
      exists k, p = Z.of_nat k /\ (pre ++ rs) !! k = Some 123
                /\ net_depth (take k (pre ++ rs)) = 0
                /\ (forall n, 0 <= net_depth (take n (pre ++ rs)))
                /\ forall n, (k < n <= length (pre ++ rs))%nat ->
                             0 < net_depth (take n (pre ++ rs))
    | Some _ => False
    end.
Proof.
  induction rs as [|r rs IH]; intros pre depth fo Hd Hpre Hfo.
  - simpl. rewrite app_nil_r.
    destruct (Z.eqb_spec depth 0) as [Hz|Hz]; simpl.
    + split; [exact Hpre | lia].
    + assert (Hpos : 0 < depth).
      { specialize (Hpre (length pre)). rewrite take_ge in Hpre by lia. lia. }
      destruct (Hfo Hpos) as (k & -> & Hk & Hk0 & Hlater).
      destruct (Z.leb_spec 0 (Z.of_nat k)); [|lia].
      exists k. repeat split; assumption.
  - assert (Hlen : Z.of_nat (length pre) + 1 = Z.of_nat (length (pre ++ [r])))
      by (rewrite length_app; simpl; lia).
    assert (Happ : pre ++ r :: rs = (pre ++ [r]) ++ rs)
      by (rewrite <- app_assoc; reflexivity).
    assert (Hnet : net_depth (pre ++ [r])
                   = depth + (if r =? 123 then 1 else if r =? 125 then -1 else 0))
      by (rewrite net_depth_app; simpl; lia).
    assert (Htake : forall n, net_depth (take n (pre ++ [r]))
                              = if (n <=? length pre)%nat then net_depth (take n pre)
                                else net_depth (pre ++ [r])).
    { intros n. destruct (Nat.leb_spec n (length pre)).
      - rewrite take_snoc_le by assumption. reflexivity.
      - rewrite take_ge by (rewrite length_app; simpl; lia). reflexivity. }
    assert (Hdepth : 0 <= depth).
    { specialize (Hpre (length pre)). rewrite take_ge in Hpre by lia. lia. }
    simpl checkBraces_loop. rewrite Hlen, Happ.
    destruct (Z.eqb_spec r 123) as [Hr|Hr].
    + apply IH.
      * rewrite Hnet. reflexivity.
      * intros n. rewrite Htake. destruct (n <=? length pre)%nat; [apply Hpre | lia].
      * intros _. destruct (Z.eqb_spec depth 0) as [Hz|Hz].
        -- exists (length pre). split; [reflexivity|]. split; [|split].
           ++ rewrite lookup_app_r by lia. rewrite Nat.sub_diag, Hr. reflexivity.
           ++ rewrite take_app_length. lia.
           ++ intros n Hn. rewrite length_app in Hn. simpl in Hn.
              rewrite take_ge by (rewrite length_app; simpl; lia). lia.
        -- destruct (Hfo ltac:(lia)) as (k & -> & Hk & Hk0 & Hlater).
           pose proof (lookup_lt_Some _ _ _ Hk) as Hklt.
           exists k. split; [reflexivity|]. split; [|split].
           ++ rewrite lookup_app_l by assumption. exact Hk.
           ++ rewrite take_snoc_le by lia. exact Hk0.
           ++ intros n Hn. rewrite length_app in Hn. simpl in Hn. rewrite Htake.
              destruct (Nat.leb_spec n (length pre)); [apply Hlater; lia | lia].
    + destruct (Z.eqb_spec r 125) as [Hc|Hc].
      * destruct (Z.eqb_spec depth 0) as [Hz|Hz].
        -- exists (length pre). split; [reflexivity|]. rewrite <- Happ. split; [|split].
           ++ rewrite lookup_app_r by lia. rewrite Nat.sub_diag, Hc. reflexivity.
           ++ rewrite take_app_length. lia.
           ++ intros n Hn. rewrite take_app_le by assumption. apply Hpre.
        -- apply IH.
           ++ rewrite Hnet. reflexivity.
           ++ intros n. rewrite Htake. destruct (n <=? length pre)%nat; [apply Hpre | lia].
           ++ intros Hpos. destruct (Hfo ltac:(lia)) as (k & -> & Hk & Hk0 & Hlater).
              pose proof (lookup_lt_Some _ _ _ Hk) as Hklt.
              exists k. split; [reflexivity|]. split; [|split].
              ** rewrite lookup_app_l by assumption. exact Hk.
              ** rewrite take_snoc_le by lia. exact Hk0.
              ** intros n Hn. rewrite length_app in Hn. simpl in Hn. rewrite Htake.
                 destruct (Nat.leb_spec n (length pre)); [apply Hlater; lia | lia].
      * apply IH.
        -- rewrite Hnet. lia.
        -- intros n. rewrite Htake. destruct (n <=? length pre)%nat; [apply Hpre | lia].
        -- intros Hpos. destruct (Hfo ltac:(lia)) as (k & -> & Hk & Hk0 & Hlater).
           pose proof (lookup_lt_Some _ _ _ Hk) as Hklt.
           exists k. split; [reflexivity|]. split; [|split].
           ++ rewrite lookup_app_l by assumption. exact Hk.
           ++ rewrite take_snoc_le by lia. exact Hk0.
           ++ intros n Hn. rewrite length_app in Hn. simpl in Hn. rewrite Htake.
              destruct (Nat.leb_spec n (length pre)); [apply Hlater; lia | lia].
Qed.

Lemma checkBraces_spec (tpl : list Z) :
  match checkBraces tpl with
  | None => balanced tpl
  | Some (EExtraClosing p) =>
    exists k, p = Z.of_nat k /\ tpl !! k = Some 125
              /\ net_depth (take k tpl) = 0
              /\ forall n, (n <= k)%nat -> 0 <= net_depth (take n tpl)
  | Some (EUnclosed p) =>
    exists k, p = Z.of_nat k /\ tpl !! k = Some 123
              /\ net_depth (take k tpl) = 0
              /\ (forall n, 0 <= net_depth (take n tpl))
              /\ forall n, (k < n <= length tpl)%nat -> 0 < net_depth (take n tpl)
  | Some _ => False
  end.
Proof.
  unfold checkBraces.
  apply (checkBraces_loop_spec tpl [] 0 (-1)); [reflexivity | | lia].
  intros n. rewrite take_nil. simpl. lia.
Qed.

Lemma checkBraces_None (tpl : list Z) : checkBraces tpl = None <-> balanced tpl.
Proof.
  pose proof (checkBraces_spec tpl) as H. split.
  - intros Hn. rewrite Hn in H. exact H.
  - intros [Hpre Htot]. destruct (checkBraces tpl) as [e|]; [exfalso | reflexivity].
    destruct e; try contradiction.
    + destruct H as (k & _ & Hk & Hk0 & _).
      specialize (Hpre (S k)). rewrite (take_S_r _ _ _ Hk), net_depth_app, Hk0 in Hpre.
      simpl in Hpre. lia.
    + destruct H as (k & _ & Hk & _ & _ & Hlater).
      pose proof (lookup_lt_Some _ _ _ Hk) as Hlt.
      specialize (Hlater (length tpl) ltac:(lia)). rewrite take_ge in Hlater by lia. lia.
Qed.

(** X9.  [checkBraces] accepts exactly the texts whose braces are
    balanced: no prefix closes more braces than it opens and the whole
    text closes as many as it opens. *)
Theorem X9_checkBraces_balanced (tpl : list Z) :
  checkBraces tpl = None <-> balanced tpl.
Proof. apply checkBraces_None. Qed.

(** X10.  The position [checkBraces] reports is that of the brace at
    fault: for an extra closing brace, the first closing brace met at
    depth 0; for an unclosed placeholder, the opening brace met at depth
    0 after which the depth stays positive to the end of the text. *)
Theorem X10_checkBraces_position (tpl : list Z) (e : error) :
  checkBraces tpl = Some e ->
  (exists k, e = EExtraClosing (Z.of_nat k) /\ tpl !! k = Some 125
             /\ net_depth (take k tpl) = 0
             /\ forall n, (n <= k)%nat -> 0 <= net_depth (take n tpl))
  \/ (exists k, e = EUnclosed (Z.of_nat k) /\ tpl !! k = Some 123
                /\ net_depth (take k tpl) = 0
                /\ (forall n, 0 <= net_depth (take n tpl))
                /\ forall n, (k < n <= length tpl)%nat -> 0 < net_depth (take n tpl)).
Proof.
  intros He. pose proof (checkBraces_spec tpl) as H. rewrite He in H.
  destruct e; try contradiction.
  - left. destruct H as (k & -> & H). exists k. split; [reflexivity | exact H].
  - right. destruct H as (k & -> & H). exists k. split; [reflexivity | exact H].
Qed.

Lemma X10_witness :
  checkBraces (gs "a{b}{c{d}") = Some (EUnclosed 4)
  /\ ((exists k, EUnclosed 4 = EExtraClosing (Z.of_nat k) /\ gs "a{b}{c{d}" !! k = Some 125
                 /\ net_depth (take k (gs "a{b}{c{d}")) = 0
                 /\ forall n, (n <= k)%nat -> 0 <= net_depth (take n (gs "a{b}{c{d}")))
      \/ (exists k, EUnclosed 4 = EUnclosed (Z.of_nat k) /\ gs "a{b}{c{d}" !! k = Some 123
                    /\ net_depth (take k (gs "a{b}{c{d}")) = 0
                    /\ (forall n, 0 <= net_depth (take n (gs "a{b}{c{d}")))
                    /\ forall n, (k < n <= length (gs "a{b}{c{d}"))%nat ->
                                 0 < net_depth (take n (gs "a{b}{c{d}")))).
Proof.
  assert (H : checkBraces (gs "a{b}{c{d}") = Some (EUnclosed 4)) by (vm_compute; reflexivity).
  split; [exact H|]. exact (X10_checkBraces_position (gs "a{b}{c{d}") (EUnclosed 4) H).
Defined.

Lemma validate_formatters_spec (reg : gmap (list Z) FormatterFunc) (fs : list Formatter) :
  validate_formatters reg fs = None <-> Forall (valid_formatter reg) fs.
Proof.
  induction fs as [|f fs IH]; simpl.
  - split; [constructor | reflexivity].
  - unfold valid_formatter at 1.
    destruct (string_eqb (strings.TrimSpace (Name f)) []) eqn:He.
    { apply string_eqb_eq in He. split; [discriminate|].
      intros H. inversion H as [|? ? [Hne _] _]; subst. contradiction. }
    apply string_eqb_neq in He.
    destruct (reg !! strings.TrimSpace (Name f)) as [fn|] eqn:Hl.
    2:{ split; [discriminate|].
        intros H. inversion H as [|? ? (_ & [x Hx] & _) _]; subst. congruence. }
    destruct (string_eqb (strings.TrimSpace (Name f)) (gs "number")) eqn:Hn; simpl.
    + apply string_eqb_eq in Hn.
      destruct (string_eqb (Arg f) []) eqn:Ha; simpl.
      * apply string_eqb_eq in Ha. rewrite IH. split.
        -- intros H. constructor; [|exact H]. unfold valid_formatter.
           rewrite Hl. repeat split; eauto. intros _ Hne. contradiction.
        -- intros H. inversion H; assumption.
      * apply string_eqb_neq in Ha.
        destruct (strconv.Atoi (Arg f)) as [n|] eqn:Hat; simpl.
        -- try (rewrite bool_decide_eq_true_2 by eauto); simpl. rewrite IH. split.
           ++ intros H. constructor; [|exact H]. unfold valid_formatter.
              rewrite Hl, Hat. repeat split; eauto.
           ++ intros H. inversion H; assumption.
        -- try (rewrite bool_decide_eq_false_2 by (intros [x Hx]; discriminate)); simpl.
           split; [discriminate|].
           intros H. inversion H as [|? ? (_ & _ & Hnum) _]; subst.
           destruct (Hnum Hn Ha) as [x Hx]. rewrite Hat in Hx. discriminate.
    + apply string_eqb_neq in Hn. rewrite IH. split.
      * intros H. constructor; [|exact H]. unfold valid_formatter.
        rewrite Hl. repeat split; eauto. intros Hnum. contradiction.
      * intros H. inversion H; assumption.
Qed.

Lemma string_eqb_spec (a b : list Z) : reflect (a = b) (string_eqb a b).
Proof.
  destruct (string_eqb a b) eqn:H; constructor;
    [apply string_eqb_eq | apply string_eqb_neq]; exact H.
Qed.

Lemma validate_cond_spec (c : option Conditional) :
  validate_cond c = None <-> forall cond, c = Some cond -> valid_cond cond.
Proof.
  destruct c as [cond|]; simpl; [|split; [discriminate | reflexivity]].
  unfold valid_cond.
  destruct (string_eqb_spec (Op cond) (gs "eq")) as [H1|H1];
  destruct (string_eqb_spec (Op cond) (gs "gt")) as [H2|H2];
  destruct (string_eqb_spec (Op cond) (gs "lt")) as [H3|H3]; simpl;
  destruct (string_eqb_spec (strings.TrimSpace (TrueExpr cond)) []) as [Ht|Ht];
  destruct (string_eqb_spec (strings.TrimSpace (FalseExpr cond)) []) as [Hf|Hf]; simpl;
  (split;
   [ try discriminate; intros _ cond' [= <-]; repeat split; auto
   | intros H; specialize (H cond eq_refl); destruct H as ([?|[?|?]] & ? & ?);
     try reflexivity; contradiction ]).
Qed.

Lemma validate_nodes_spec (reg : gmap (list Z) FormatterFunc) (ast : list Node) :
  validate_nodes reg ast = None <-> Forall (valid_node reg) ast.
Proof.
  induction ast as [|node ast IH]; simpl.
  - split; [constructor | reflexivity].
  - destruct node as [t|ph].
    + rewrite IH. split; [intros H; constructor; [exact I | exact H]|].
      intros H. inversion H; assumption.
    + simpl.
      destruct (string_eqb (strings.TrimSpace (Path ph)) []) eqn:Hp.
      { apply string_eqb_eq in Hp. split; [discriminate|].
        intros H. inversion H as [|? ? Hn _]; subst. destruct Hn as [Hne _]. contradiction. }
      apply string_eqb_neq in Hp.
      pose proof (validate_formatters_spec reg (Formatters ph)) as Hfs.
      destruct (validate_formatters reg (Formatters ph)) as [e|].
      { split; [discriminate|].
        intros H. inversion H as [|? ? Hn _]; subst. destruct Hn as (_ & Hf & _).
        apply Hfs in Hf. discriminate. }
      pose proof (validate_cond_spec (Cond ph)) as Hcs.
      destruct (validate_cond (Cond ph)) as [e|].
      { split; [discriminate|].
        intros H. inversion H as [|? ? Hn _]; subst. destruct Hn as (_ & _ & Hc).
        apply Hcs in Hc. discriminate. }
      rewrite IH. split.
      * intros H. constructor; [|exact H].
        split; [exact Hp|]. split; [apply Hfs; reflexivity | apply Hcs; reflexivity].
      * intros H. inversion H; assumption.
Qed.

(** X11.  [ValidateTemplate] accepts a template exactly when its braces
    are balanced and every placeholder of its AST has a path that is not
    blank, formatter names that are registered, an integer as the
    argument of [number] when there is one, and, if it has a
    conditional, one of the operators eq, gt, lt and two branches that
    are not blank. *)
Theorem X11_ValidateTemplate_accepts (reg : gmap (list Z) FormatterFunc) (tpl : list Z) :
  ValidateTemplate reg tpl = Done None
  <-> balanced tpl
      /\ exists ast, ParseTemplate tpl = Done (ast, None) /\ Forall (valid_node reg) ast.
Proof.
  unfold ValidateTemplate. rewrite <- checkBraces_None.
  destruct (ParseTemplate_total tpl) as [ast Hp]. rewrite Hp.
  destruct (checkBraces tpl) as [e|].
  - split; [discriminate | intros [H _]; discriminate].
  - simpl. split.
    + intros [= H]. split; [reflexivity|]. exists ast. split; [reflexivity|].
      apply validate_nodes_spec, H.
    + intros [_ (ast' & [= <-] & H)]. apply validate_nodes_spec in H. rewrite H. reflexivity.
Qed.

(** ** The value resolver, continued *)

Section MoreResolve.

Context {L : GoLib}.

Implicit Types (args : list (list Z * value)).

Lemma resolve_loop_app (s1 s2 : list (list Z)) :
  forall current,
    resolve_loop (s1 ++ s2) current
    = match resolve_loop s1 current with
      | Done (v, true) => resolve_loop s2 v
      | Done (_, false) => Done (VNil, false)
      | other => other
      end.
Proof.
  induction s1 as [|seg s1 IH]; intros current; simpl; [reflexivity|].
  destruct (resolve_segment current seg) as [[v|]| |]; simpl; try reflexivity.
  apply IH.
Qed.

(** X12.  Resolution goes segment by segment: resolving [p1.p2] is
    resolving [p1] and then [p2] from the value found; when [p1] is not
    found neither is [p1.p2], and a panic on [p1] is one on [p1.p2]. *)
Theorem X12_path_composes args (p1 p2 : list Z) :
  getValueByPath args (p1 ++ 46 :: p2)
  = match getValueByPath args p1 with
    | Done (VMap m, true) => getValueByPath m p2
    | Done (v, true) => resolve_loop (strings.Split p2 46) v
    | Done (_, false) => Done (VNil, false)
    | other => other
    end.
Proof.
  unfold getValueByPath. rewrite Split_app, resolve_loop_app.
  destruct (resolve_loop (strings.Split p1 46) (VMap args)) as [[v ok]| |];
    try reflexivity.
  destruct v, ok; reflexivity.
Qed.

(** X13.  A path with no dot is one key of the bag: it resolves to the
    entry of that exact key, and is not found when the bag has none. *)
Theorem X13_flat_key args (key : list Z) :
  Forall (fun r => r <> 46) key ->
  getValueByPath args key
  = match map_lookup args key with
    | Some v => Done (v, true)
    | None => Done (VNil, false)
    end.
Proof.
  intros H. unfold getValueByPath. rewrite (Split_no_sep key 46 H). simpl.
  destruct (map_lookup args key); reflexivity.
Qed.

(** X14.  An entry of the bag whose key holds a dot is never reached:
    adding it changes the result of no resolution. *)
Theorem X14_dotted_key_unreachable args (key path : list Z) (v : value) :
  strings.Contains key 46 = true ->
  getValueByPath ((key, v) :: args) path = getValueByPath args path.
Proof.
  intros Hk. unfold getValueByPath.
  pose proof (Split_pieces path 46) as Hp.
  pose proof (Split_nonempty path 46) as Hne0.
  destruct (strings.Split path 46) as [|seg rest]; [congruence|].
  inversion Hp as [|? ? Hseg _]; subst. simpl.
  destruct (string_eqb_spec key seg) as [->|Hne]; [|reflexivity].
  exfalso. unfold strings.Contains in Hk. apply existsb_exists in Hk.
  destruct Hk as (r & Hin & Hr). apply Z.eqb_eq in Hr. subst r.
  rewrite List.Forall_forall in Hseg. apply (Hseg 46 Hin). reflexivity.
Qed.


Lemma fold_eq_rune_ascii (a b : Z) :
  (if (65 <=? a) && (a <=? 90) then a + 32 else a)
  = (if (65 <=? b) && (b <=? 90) then b + 32 else b) ->
  fold_eq_rune a b = true.
Proof.
  unfold fold_eq_rune. intros H.
  destruct (Z.eqb_spec a b); [reflexivity|].
  assert (Hc : (65 <= a <= 90 /\ b = a + 32) \/ (65 <= b <= 90 /\ a = b + 32)).
  { destruct (Z.leb_spec 65 a), (Z.leb_spec a 90), (Z.leb_spec 65 b), (Z.leb_spec b 90);
      simpl in H; lia. }
  destruct Hc as [[Hr ->]|[Hr ->]].
  - rewrite Z.max_r, Z.min_l by lia.
    destruct (Z.ltb_spec (a + 32) 128); [|lia].
    destruct (Z.leb_spec 65 a); [|lia]. destruct (Z.leb_spec a 90); [|lia].
    rewrite Z.eqb_refl. reflexivity.
  - rewrite Z.max_l, Z.min_r by lia.
    destruct (Z.ltb_spec (b + 32) 128); [|lia].
    destruct (Z.leb_spec 65 b); [|lia]. destruct (Z.leb_spec b 90); [|lia].
    rewrite Z.eqb_refl. reflexivity.
Qed.

Lemma EqualFold_ascii (s : list Z) :
  forall t, ascii_lower s = ascii_lower t -> EqualFold s t = true.
Proof.
  induction s as [|a s IH]; intros [|b t]; simpl; try discriminate; [reflexivity|].
  intros [= Hab Hst]. rewrite (fold_eq_rune_ascii a b Hab), (IH t Hst). reflexivity.
Qed.

(** X16.  The name of a field is matched whatever the case of its ASCII
    letters: in a struct with one exported field, reached directly or
    through one pointer, a segment that spells the name of the field up
    to ASCII case resolves to the value of the field. *)
Theorem X16_field_case_insensitive args (key name seg : list Z) (v : value)
    (through_pointer : bool) :
  Forall (fun r => r <> 46) key -> Forall (fun r => r <> 46) seg ->
  ascii_lower name = ascii_lower seg ->
  map_lookup args key
  = Some (if through_pointer then VPtr (Some (VStruct [(name, true, v)]))
          else VStruct [(name, true, v)]) ->
  getValueByPath args (key ++ 46 :: seg) = Done (v, true).
Proof.
  intros Hkey Hseg Hfold Hl. unfold getValueByPath.
  rewrite Split_app, (Split_no_sep key 46 Hkey), (Split_no_sep seg 46 Hseg). simpl.
  rewrite Hl. simpl.
  destruct through_pointer; simpl; unfold FieldByNameFunc; simpl;
    rewrite (EqualFold_ascii name seg Hfold); reflexivity.
Qed.

End MoreResolve.

Lemma X13_witness :
  Forall (fun r => r <> 46) (gs "count")
  /\ getValueByPath (L := ascii_lib) [(gs "count", VInt 5)] (gs "count") = Done (VInt 5, true).
Proof.
  assert (H : Forall (fun r => r <> 46) (gs "count"))
    by (vm_compute; repeat constructor; discriminate).
  split; [exact H|].
  exact (X13_flat_key (L := ascii_lib) [(gs "count", VInt 5)] (gs "count") H).
Defined.

Lemma X14_witness :
  strings.Contains (gs "a.b") 46 = true
  /\ getValueByPath (L := ascii_lib) [(gs "a.b", VInt 1)] (gs "a.b")
     = getValueByPath (L := ascii_lib) [] (gs "a.b").
Proof.
  assert (H : strings.Contains (gs "a.b") 46 = true) by (vm_compute; reflexivity).
  split; [exact H|].
  exact (X14_dotted_key_unreachable (L := ascii_lib) [] (gs "a.b") (gs "a.b") (VInt 1) H).
Defined.


Lemma X16_witness :
  let args := [(gs "user", VPtr (Some (VStruct [(gs "DisplayName", true, VInt 7)])))] in
  Forall (fun r => r <> 46) (gs "user") /\ Forall (fun r => r <> 46) (gs "displayNAME")
  /\ ascii_lower (gs "DisplayName") = ascii_lower (gs "displayNAME")
  /\ map_lookup args (gs "user") = Some (VPtr (Some (VStruct [(gs "DisplayName", true, VInt 7)])))
  /\ getValueByPath (L := ascii_lib) args (gs "user" ++ 46 :: gs "displayNAME")
     = Done (VInt 7, true).
Proof.
  intros args.
  assert (H1 : Forall (fun r => r <> 46) (gs "user"))
    by (vm_compute; repeat constructor; discriminate).
  assert (H2 : Forall (fun r => r <> 46) (gs "displayNAME"))
    by (vm_compute; repeat constructor; discriminate).
  assert (H3 : ascii_lower (gs "DisplayName") = ascii_lower (gs "displayNAME"))
    by (vm_compute; reflexivity).
  assert (H4 : map_lookup args (gs "user")
               = Some (VPtr (Some (VStruct [(gs "DisplayName", true, VInt 7)]))))
    by (vm_compute; reflexivity).
  repeat (split; [assumption|]).
  exact (X16_field_case_insensitive (L := ascii_lib) args (gs "user") (gs "DisplayName")
           (gs "displayNAME") (VInt 7) true H1 H2 H3 H4).
Defined.

(** ** The thousands separator *)

Lemma utf8_len_ascii (r : Z) : 0 <= r < 128 -> utf8.utf8_len r = 1.
Proof.
  intros H. unfold utf8.utf8_len.
  destruct (Z.ltb_spec r 0); [lia|]. destruct (Z.ltb_spec r 128); [reflexivity | lia].
Qed.

Lemma byte_len_ascii (s : list Z) :
  Forall (fun r => 0 <= r < 128) s -> utf8.byte_len s = Z.of_nat (length s).
Proof.
  induction 1 as [|r s Hr _ IH]; [reflexivity|].
  change (utf8.byte_len (r :: s)) with (utf8.utf8_len r + utf8.byte_len s).
  rewrite IH, (utf8_len_ascii r Hr). simpl length. lia.
Qed.

Lemma digits_ascii (s : list Z) : digits s -> Forall (fun r => 0 <= r < 128) s.
Proof.
  unfold digits. apply List.Forall_impl. intros r H. unfold strconv.is_digit in H.
  destruct (Z.leb_spec 48 r), (Z.leb_spec r 57); simpl in H; try discriminate. lia.
Qed.

Lemma digits_no (c : Z) (s : list Z) :
  strconv.is_digit c = false -> digits s -> Forall (fun r => r <> c) s.
Proof.
  intros Hc. unfold digits. apply List.Forall_impl. intros r H ->. congruence.
Qed.

Lemma sep_loop_app (a b : list Z) (len : Z) :
  Forall (fun r => 0 <= r < 128) a ->
  forall i, sep_loop (a ++ b) i len
            = sep_loop a i len ++ sep_loop b (i + Z.of_nat (length a)) len.
Proof.
  induction 1 as [|r a Hr _ IH]; intros i.
  - simpl. rewrite Z.add_0_r. reflexivity.
  - cbn [app sep_loop length]. rewrite IH, (utf8_len_ascii r Hr).
    replace (i + 1 + Z.of_nat (length a)) with (i + Z.of_nat (S (length a))) by lia.
    rewrite <- app_assoc. reflexivity.
Qed.

Lemma sep_loop_shift (a : list Z) (len : Z) :
  forall i, sep_loop a i (len + 3) = sep_loop a i len.
Proof.
  induction a as [|r a IH]; intros i; [reflexivity|].
  cbn [sep_loop]. rewrite IH.
  replace (len + 3 - i) with (len - i + 1 * 3) by lia.
  rewrite Z.mod_add by lia. reflexivity.
Qed.

Lemma sep_loop_tail (len : Z) (rs : list Z) :
  Forall (fun r => 0 <= r < 128) rs ->
  forall i, 0 < i -> (length rs < 3)%nat -> len - i = Z.of_nat (length rs) ->
            sep_loop rs i len = rs.
Proof.
  induction 1 as [|r rs Hr _ IH]; intros i Hi Hlen Hd; [reflexivity|].
  cbn [sep_loop]. simpl length in Hlen, Hd.
  destruct (Z.eqb_spec i 0); [lia|].
  rewrite Z.mod_small by lia.
  destruct (Z.eqb_spec (len - i) 0); [lia|].
  simpl. rewrite (utf8_len_ascii r Hr), IH; [reflexivity| | |]; lia.
Qed.

Lemma sep_loop_short (rs : list Z) :
  Forall (fun r => 0 <= r < 128) rs -> (length rs <= 3)%nat ->
  sep_loop rs 0 (Z.of_nat (length rs)) = rs.
Proof.
  intros H Hlen. destruct H as [|r rs Hr Hrs]; [reflexivity|].
  cbn [sep_loop]. simpl. rewrite (utf8_len_ascii r Hr).
  rewrite sep_loop_tail; [reflexivity|exact Hrs| | |]; simpl in Hlen; lia.
Qed.

Lemma sep_loop_group (a b : list Z) :
  Forall (fun r => 0 <= r < 128) a -> Forall (fun r => 0 <= r < 128) b ->
  a <> [] -> length b = 3%nat ->
  sep_loop (a ++ b) 0 (Z.of_nat (length (a ++ b)))
  = sep_loop a 0 (Z.of_nat (length a)) ++ 44 :: b.
Proof.
  intros Ha Hb Hne Hlen.
  rewrite length_app, Hlen, (sep_loop_app a b _ Ha).
  replace (Z.of_nat (length a + 3)) with (Z.of_nat (length a) + 3) by lia.
  rewrite sep_loop_shift. f_equal.
  destruct b as [|x b]; [discriminate|]. inversion Hb as [|? ? Hx Hb']; subst.
  cbn [sep_loop].
  assert (Hpos : 0 + Z.of_nat (length a) <> 0) by (destruct a; [congruence | simpl; lia]).
  destruct (Z.eqb_spec (0 + Z.of_nat (length a)) 0); [contradiction|].
  replace (Z.of_nat (length a) + 3 - (0 + Z.of_nat (length a))) with 3 by lia.
  simpl. rewrite (utf8_len_ascii x Hx). do 2 f_equal.
  apply sep_loop_tail; [exact Hb'| | |]; simpl in Hlen; lia.
Qed.

Lemma HasPrefix_digits (s : list Z) : digits s -> strings.HasPrefix s [45] = false.
Proof.
  intros H. destruct H as [|r s Hr _]; [reflexivity|].
  simpl. destruct (Z.eqb_spec r 45) as [->|]; [discriminate Hr | reflexivity].
Qed.

Lemma addThousandsSep_digits (s : list Z) :
  digits s -> addThousandsSep s = sep_loop s 0 (Z.of_nat (length s)).
Proof.
  intros H. unfold addThousandsSep.
  rewrite (HasPrefix_digits s H), (Split_no_sep s 46 (digits_no 46 s eq_refl H)).
  simpl. unfold nth_str. simpl. rewrite (byte_len_ascii s (digits_ascii s H)).
  reflexivity.
Qed.

(** X17.  [addThousandsSep] groups the digits by three from the right:
    a number of at most three digits is left as it is, and a longer one
    is its last three digits after a comma after what [addThousandsSep]
    makes of the digits before them. *)
Theorem X17_thousands_grouping (a b : list Z) :
  digits a -> digits b ->
  ((length b <= 3)%nat -> addThousandsSep b = b)
  /\ (a <> [] -> length b = 3%nat ->
      addThousandsSep (a ++ b) = addThousandsSep a ++ 44 :: b).
Proof.
  intros Ha Hb. split.
  - intros Hlen. rewrite (addThousandsSep_digits b Hb).
    apply sep_loop_short; [apply digits_ascii, Hb | exact Hlen].
  - intros Hne Hlen.
    rewrite (addThousandsSep_digits a Ha).
    rewrite (addThousandsSep_digits (a ++ b)) by (apply Forall_app; split; assumption).
    apply sep_loop_group; [apply digits_ascii, Ha | apply digits_ascii, Hb | exact Hne | exact Hlen].
Qed.

Lemma X17_witness :
  digits (gs "1234") /\ digits (gs "567")
  /\ addThousandsSep (gs "567") = gs "567"
  /\ addThousandsSep (gs "1234" ++ gs "567") = addThousandsSep (gs "1234") ++ 44 :: gs "567".
Proof.
  assert (Ha : digits (gs "1234")) by (vm_compute; repeat constructor).
  assert (Hb : digits (gs "567")) by (vm_compute; repeat constructor).
  split; [exact Ha|]. split; [exact Hb|].
  destruct (X17_thousands_grouping (gs "1234") (gs "567") Ha Hb) as [H1 H2].
  split; [apply H1; vm_compute; lia | apply H2; [vm_compute; discriminate | reflexivity]].
Defined.

Lemma RemoveAll_none (s : list Z) (c : Z) :
  Forall (fun r => r <> c) s -> strings.RemoveAll s c = s.
Proof.
  induction 1 as [|r s Hr _ IH]; [reflexivity|].
  unfold strings.RemoveAll in *. simpl.
  destruct (Z.eqb_spec r c); [contradiction|]. simpl. rewrite IH. reflexivity.
Qed.

Lemma RemoveAll_app (a b : list Z) (c : Z) :
  strings.RemoveAll (a ++ b) c = strings.RemoveAll a c ++ strings.RemoveAll b c.
Proof. apply List.filter_app. Qed.

Lemma RemoveAll_sep_loop (rs : list Z) (len : Z) :
  Forall (fun r => r <> 44) rs ->
  forall i, strings.RemoveAll (sep_loop rs i len) 44 = rs.
Proof.
  induction 1 as [|r rs Hr _ IH]; intros i; [reflexivity|].
  cbn [sep_loop]. rewrite RemoveAll_app.
  change (strings.RemoveAll (r :: sep_loop rs (i + utf8.utf8_len r) len) 44)
    with (if negb (r =? 44) then r :: strings.RemoveAll (sep_loop rs (i + utf8.utf8_len r) len) 44
          else strings.RemoveAll (sep_loop rs (i + utf8.utf8_len r) len) 44).
  destruct (Z.eqb_spec r 44); [contradiction|]. simpl negb. cbv iota. rewrite IH.
  destruct (negb (i =? 0) && ((len - i) mod 3 =? 0)); reflexivity.
Qed.

Lemma HasPrefix_nil (s : list Z) : strings.HasPrefix s [] = true.
Proof. destruct s; reflexivity. Qed.

(** X18.  [addThousandsSep] only adds commas: on a string made of an
    optional minus sign, an integer part and an optional fraction after
    one dot, none of which holds a comma, taking the commas out of the
    result gives the string back. *)
Theorem X18_thousands_round_trip (neg : bool) (int : list Z) (frac : option (list Z)) :
  Forall (fun r => r <> 46 /\ r <> 44) int ->
  (neg = false -> strings.HasPrefix int [45] = false) ->
  (forall f, frac = Some f -> Forall (fun r => r <> 46 /\ r <> 44) f) ->
  let s := (if neg then [45] else []) ++ int
           ++ match frac with Some f => 46 :: f | None => [] end in
  strings.RemoveAll (addThousandsSep s) 44 = s.
Proof.
  intros Hint Hneg Hfrac s.
  assert (Hi46 : Forall (fun r => r <> 46) int)
    by (revert Hint; apply List.Forall_impl; tauto).
  assert (Hi44 : Forall (fun r => r <> 44) int)
    by (revert Hint; apply List.Forall_impl; tauto).
  assert (Hpre : strings.HasPrefix s [45] = neg).
  { subst s. destruct neg.
    { simpl. apply HasPrefix_nil. }
    simpl app.
    specialize (Hneg eq_refl). destruct int as [|r int]; simpl in *.
    - destruct frac; reflexivity.
    - rewrite HasPrefix_nil in *. exact Hneg. }
  assert (Hbody : (if neg then drop 1 s else s)
                  = int ++ match frac with Some f => 46 :: f | None => [] end).
  { subst s. destruct neg; reflexivity. }
  unfold addThousandsSep. rewrite Hpre, Hbody.
  assert (Hsign : forall buf, strings.RemoveAll (if neg then 45 :: buf else buf) 44
                              = (if neg then [45] else []) ++ strings.RemoveAll buf 44).
  { intros buf. destruct neg; reflexivity. }
  cbv zeta. rewrite Hsign. subst s. f_equal.
  destruct frac as [f|].
  - specialize (Hfrac f eq_refl).
    assert (Hf46 : Forall (fun r => r <> 46) f) by (revert Hfrac; apply List.Forall_impl; tauto).
    assert (Hf44 : Forall (fun r => r <> 44) f) by (revert Hfrac; apply List.Forall_impl; tauto).
    rewrite Split_app, (Split_no_sep int 46 Hi46), (Split_no_sep f 46 Hf46).
    simpl. unfold nth_str. simpl.
    rewrite RemoveAll_app, (RemoveAll_sep_loop int _ Hi44).
    change (46 :: f) with ([46] ++ f) at 1.
    rewrite RemoveAll_app, (RemoveAll_none f 44 Hf44). reflexivity.
  - rewrite app_nil_r, (Split_no_sep int 46 Hi46).
    simpl. unfold nth_str. simpl. apply RemoveAll_sep_loop, Hi44.
Qed.

Lemma X18_witness :
  let int := gs "1234567" in
  Forall (fun r => r <> 46 /\ r <> 44) int
  /\ addThousandsSep (gs "-1234567.50") = gs "-1,234,567.50"
  /\ strings.RemoveAll (addThousandsSep (gs "-1234567.50")) 44 = gs "-1234567.50".
Proof.
  intros int.
  assert (H1 : Forall (fun r => r <> 46 /\ r <> 44) int)
    by (vm_compute; repeat constructor; discriminate).
  assert (H2 : true = false -> strings.HasPrefix int [45] = false) by discriminate.
  assert (H3 : forall f, Some (gs "50") = Some f -> Forall (fun r => r <> 46 /\ r <> 44) f).
  { intros f [= <-]. vm_compute; repeat constructor; discriminate. }
  split; [exact H1|]. split; [vm_compute; reflexivity|].
  exact (X18_thousands_round_trip true int (Some (gs "50")) H1 H2 H3).
Defined.

(** ** Comparisons, formatters and the registry *)

Lemma SFcompare_antisym (a b : spec_float) :
  SFcompare b a = option_map CompOpp (SFcompare a b).
Proof.
  destruct a as [sa|sa| |sa ma ea], b as [sb|sb| |sb mb eb]; simpl;
    try reflexivity; try (destruct sa; reflexivity); try (destruct sb; reflexivity);
    try (destruct sa, sb; reflexivity).
  assert (Hm : Pos.compare_cont Eq mb ma = CompOpp (Pos.compare_cont Eq ma mb))
    by (symmetry; exact (Pos.compare_cont_antisym ma mb Eq)).
  destruct sa, sb; simpl; try reflexivity;
    rewrite (Z.compare_antisym ea eb);
    destruct (ea ?= eb); simpl; try reflexivity;
    change (PosDef.Pos.compare_cont Eq mb ma) with (Pos.compare_cont Eq mb ma);
    rewrite Hm; destruct (Pos.compare_cont Eq ma mb); reflexivity.
Qed.

Lemma SFcompare_nan (a b : spec_float) :
  SFcompare a b = None <-> is_nan a || is_nan b = true.
Proof.
  destruct a as [sa|sa| |sa ma ea], b as [sb|sb| |sb mb eb]; simpl;
    split; intros H; try reflexivity; try discriminate H.
Qed.

Section MoreFormatters.

Context {L : GoLib}.

(** X19.  A number compared with a test value that parses as a number
    satisfies exactly one of [eq], [gt] and [lt], unless one of the two
    is not a number, when it satisfies none of them. *)
Theorem X19_compare_trichotomy (v : value) (test : list Z) (rv : spec_float) :
  numeric v -> strconv.ParseFloat test = Some rv ->
  exists e g l,
    compareValues v (gs "eq") test = (e, None)
    /\ compareValues v (gs "gt") test = (g, None)
    /\ compareValues v (gs "lt") test = (l, None)
    /\ (if is_nan (float_of v) || is_nan rv
        then e = false /\ g = false /\ l = false
        else one_of_three e g l).
Proof.
  intros Hv Hp.
  assert (Hc : forall op, compareValues v op test = compareNumbers v op test)
    by (intros op; destruct v; try contradiction; reflexivity).
  assert (Hn : forall op,
            compareNumbers v op test
            = if string_eqb op (gs "eq") then (SFeqb (float_of v) rv, None)
              else if string_eqb op (gs "gt") then (SFltb rv (float_of v), None)
              else if string_eqb op (gs "lt") then (SFltb (float_of v) rv, None)
              else (false, Some (EUnknownOp op))).
  { intros op. unfold compareNumbers. rewrite Hp.
    destruct v; try contradiction; reflexivity. }
  exists (SFeqb (float_of v) rv), (SFltb rv (float_of v)), (SFltb (float_of v) rv).
  rewrite !Hc, !Hn.
  split; [reflexivity|]. split; [reflexivity|]. split; [reflexivity|].
  unfold SFeqb, SFltb. rewrite (SFcompare_antisym (float_of v) rv).
  pose proof (SFcompare_nan (float_of v) rv) as Hnan.
  destruct (SFcompare (float_of v) rv) as [[| |]|]; simpl;
    destruct (is_nan (float_of v) || is_nan rv);
    unfold one_of_three; try tauto;
    try (exfalso; destruct Hnan as [H1 H2]; discriminate (H2 eq_refl));
    try (exfalso; destruct Hnan as [H1 H2]; discriminate (H1 eq_refl)).
Qed.

(** X20.  On a number, [currency] is [number] at two decimals after
    the symbol, which is the dollar sign when no argument is given;
    neither returns an error. *)
Theorem X20_currency_is_number (v : value) (arg : list Z) :
  numeric v ->
  exists s, formatNumber v (gs "2") = (s, None)
            /\ formatCurrency v arg = ((if string_eqb arg [] then [36] else arg) ++ s, None).
Proof.
  intros Hv. exists (addThousandsSep (Sprintf_prec_f 2 (float_of v))).
  destruct v; try contradiction; split; reflexivity.
Qed.

Lemma formatNumber_known (v : value) (arg n : list Z) :
  snd (formatNumber v arg) <> Some (EUnknownFormatter n).
Proof.
  unfold formatNumber.
  match goal with
  | |- context [match ?p with inl _ => _ | inr _ => _ end] => destruct p as [f|err] eqn:Hp
  end.
  - cbv zeta. destruct (if string_eqb arg [] then Some 0 else strconv.Atoi arg);
      cbn [snd]; discriminate.
  - cbn [snd]. intros [= ->].
    destruct v; try discriminate Hp.
    destruct (strconv.ParseFloat _); discriminate Hp.
Qed.

Lemma formatCurrency_known (v : value) (arg n : list Z) :
  snd (formatCurrency v arg) <> Some (EUnknownFormatter n).
Proof.
  unfold formatCurrency. cbv zeta.
  match goal with
  | |- context [match ?p with inl _ => _ | inr _ => _ end] => destruct p as [f|err] eqn:Hp
  end.
  - cbn [snd]. discriminate.
  - cbn [snd]. intros [= ->].
    destruct v; try discriminate Hp.
    destruct (strconv.ParseFloat _); discriminate Hp.
Qed.

Lemma formatDate_known (v : value) (arg n : list Z) :
  snd (formatDate v arg) <> Some (EUnknownFormatter n).
Proof.
  unfold formatDate. cbv zeta.
  destruct v as [| | | | | | | |[[]|]| |]; cbn [snd]; try discriminate.
  destruct (TimeParse _); cbn [snd]; discriminate.
Qed.

Lemma init_registry_lookup (name : list Z) :
  is_Some (init_registry !! name) <-> In name builtin_names.
Proof.
  unfold init_registry, RegisterFormatter, builtin_names.
  rewrite !lookup_insert_is_Some', lookup_empty, is_Some_alt. cbn [In].
  intuition congruence.
Qed.

(** X21.  After [init] the registry holds the formatters [upper],
    [lower], [title], [number], [currency] and [date] and no other:
    applying a name returns the unknown-formatter error exactly when
    the name is none of these six. *)
Theorem X21_builtin_formatters (v : value) (name arg : list Z) :
  snd (applyRegisteredFormatter init_registry v name arg) = Some (EUnknownFormatter name)
  <-> ~ In name builtin_names.
Proof.
  unfold applyRegisteredFormatter. split.
  - intros H Hin. revert H. unfold builtin_names in Hin. cbn [In] in Hin.
    unfold init_registry, RegisterFormatter.
    destruct Hin as [<-|[<-|[<-|[<-|[<-|[<-|[]]]]]]];
      repeat (rewrite lookup_insert_ne by (vm_compute; discriminate));
      rewrite lookup_insert_eq; unfold as_any; cbn [snd];
      first [discriminate | apply formatNumber_known | apply formatCurrency_known
            | apply formatDate_known].
  - intros H. destruct (init_registry !! name) as [f|] eqn:Hf; [|reflexivity].
    exfalso. apply H, init_registry_lookup. eexists. exact Hf.
Qed.
(** X22.  Registering a formatter under a name replaces what the name
    stood for, a built-in formatter included, and changes no other
    name. *)
Theorem X22_register_replaces (reg : gmap (list Z) FormatterFunc)
    (name : list Z) (f : FormatterFunc) (v : value) (n arg : list Z) :
  applyRegisteredFormatter (RegisterFormatter name f reg) v n arg
  = if string_eqb n name then f v arg else applyRegisteredFormatter reg v n arg.
Proof.
  unfold applyRegisteredFormatter, RegisterFormatter.
  destruct (string_eqb_spec n name) as [->|Hne].
  - rewrite lookup_insert_eq. reflexivity.
  - rewrite lookup_insert_ne by congruence. reflexivity.
Qed.

End MoreFormatters.

Lemma X19_witness :
  let rv := f64.of_decimal 25 (-1) in
  numeric (VInt 3) /\ strconv.ParseFloat (gs "2.5") = Some rv
  /\ exists e g l,
       compareValues (VInt 3) (gs "eq") (gs "2.5") = (e, None)
       /\ compareValues (VInt 3) (gs "gt") (gs "2.5") = (g, None)
       /\ compareValues (VInt 3) (gs "lt") (gs "2.5") = (l, None)
       /\ (if is_nan (float_of (VInt 3)) || is_nan rv
           then e = false /\ g = false /\ l = false
           else one_of_three e g l).
Proof.
  intros rv.
  assert (H1 : numeric (VInt 3)) by exact I.
  assert (H2 : strconv.ParseFloat (gs "2.5") = Some rv) by (vm_compute; reflexivity).
  split; [exact H1|]. split; [exact H2|].
  exact (X19_compare_trichotomy (VInt 3) (gs "2.5") rv H1 H2).
Defined.

Lemma X20_witness :
  numeric (VInt 1234)
  /\ exists s, formatNumber (L := ascii_lib) (VInt 1234) (gs "2") = (s, None)
               /\ formatCurrency (L := ascii_lib) (VInt 1234) [] = ([36] ++ s, None).
Proof.
  split; [exact I|]. exact (X20_currency_is_number (L := ascii_lib) (VInt 1234) [] I).
Defined.

(** ** Bundles and locales *)

Section MoreBundle.

Context {L : GoLib}.

(** X23.  [RegisterMessages] merges: afterwards the language has the
    messages registered, which replace those it had under the same
    keys, and every other message of the bundle is as before. *)
Theorem X23_RegisterMessages_merges (b : Bundle) (lang : list Z)
    (msgs : gmap (list Z) (list Z)) (lang' key : list Z) :
  message_of (RegisterMessages b lang msgs) lang' key
  = (if string_eqb lang' lang
     then match msgs !! key with
          | Some text => Some text
          | None => message_of b lang key
          end
     else message_of b lang' key)
  /\ is_Some (messages (RegisterMessages b lang msgs) !! lang).
Proof.
  unfold message_of, RegisterMessages. simpl. split.
  - destruct (string_eqb_spec lang' lang) as [->|Hne].
    + rewrite lookup_insert_eq, lookup_union.
      destruct (msgs !! key) as [text|]; destruct (messages b !! lang) as [old|]; simpl.
      * destruct (old !! key); reflexivity.
      * rewrite lookup_empty. reflexivity.
      * destruct (old !! key); reflexivity.
      * rewrite lookup_empty. reflexivity.
    + rewrite lookup_insert_ne by congruence. reflexivity.
  - rewrite lookup_insert_eq. eexists. reflexivity.
Qed.

Lemma locale_chain (cfg : Config) (b : Bundle) (lang : list Z) :
  config b = config (New cfg) ->
  let default := DefaultLang (config (New cfg)) in
  let chain := langs (Bundle_Locale b lang) in
  default <> [] /\ chain <> []
  /\ (forall l fb, lang <> [] -> Fallbacks cfg !! lang = Some (l :: fb) -> chain = l :: fb)
  /\ (lang = [] \/ Fallbacks cfg !! lang = None \/ Fallbacks cfg !! lang = Some [] ->
      NoDup chain /\ last chain = Some default
      /\ (chain = [default] \/ chain = [lang; default])).
Proof.
  intros Hb default chain.
  assert (Hd : default <> []).
  { subst default. simpl. destruct (string_eqb_spec (DefaultLang cfg) []); [discriminate | assumption]. }
  assert (Hchain : chain
                   = if negb (string_eqb lang []) then
                       match Fallbacks cfg !! lang with
                       | Some (l :: fb) => l :: fb
                       | _ => [lang] ++ (if negb (string_eqb default [])
                                            && negb (string_eqb default lang)
                                         then [default] else [])
                       end
                     else [default]).
  { subst chain default. unfold Bundle_Locale. rewrite Hb. reflexivity. }
  clearbody chain default. subst chain.
  split; [exact Hd|].
  destruct (string_eqb_spec lang []) as [->|Hl]; simpl.
  - split; [discriminate|]. split; [congruence|]. intros _.
    split; [apply NoDup_singleton|]. split; [reflexivity | left; reflexivity].
  - destruct (string_eqb_spec default []); [contradiction|]. simpl.
    split; [destruct (Fallbacks cfg !! lang) as [[|? ?]|]; discriminate|].
    split.
    + intros l fb _ ->. reflexivity.
    + intros [Hc|[Hc|Hc]]; [contradiction| |]; rewrite Hc;
        (destruct (string_eqb_spec default lang) as [->|Hne]; simpl;
         [split; [apply NoDup_singleton|]; split; [reflexivity | left; reflexivity]
         |split; [apply NoDup_cons; split;
                  [rewrite list_elem_of_singleton; congruence | apply NoDup_singleton]|];
          split; [reflexivity | right; reflexivity]]).
Qed.

(** X24.  The chain of a locale of a bundle made by [New] is never
    empty.  A fallback list configured for the language, when not
    empty, is the chain; otherwise the chain is the language, when one
    is given, followed by the default language, without repetition. *)
Theorem X24_locale_chain (cfg : Config) (b : Bundle) (lang : list Z) :
  config b = config (New cfg) ->
  let default := DefaultLang (config (New cfg)) in
  let chain := langs (Bundle_Locale b lang) in
  default <> [] /\ chain <> []
  /\ (forall l fb, lang <> [] -> Fallbacks cfg !! lang = Some (l :: fb) -> chain = l :: fb)
  /\ (lang = [] \/ Fallbacks cfg !! lang = None \/ Fallbacks cfg !! lang = Some [] ->
      NoDup chain /\ last chain = Some default
      /\ (chain = [default] \/ chain = [lang; default])).
Proof. apply locale_chain. Qed.

Lemma T_loop_cons (fuel : nat) reg c (b : Bundle) (lang : list Z) (rest : list (list Z))
    (key : list Z) args :
  T_loop fuel reg c b (lang :: rest) key args
  = match message_of b lang key with
    | Some text => rendered_or_text text (RenderTemplate fuel reg c text args)
    | None => T_loop fuel reg c b rest key args
    end.
Proof.
  simpl. unfold message_of.
  destruct (messages b !! lang) as [msgs|]; [|reflexivity].
  destruct (msgs !! key) as [text|]; [|reflexivity].
  destruct (RenderTemplate fuel reg c text args) as [[[res [e|]] c']| |]; reflexivity.
Qed.

Lemma T_loop_none (fuel : nat) reg c (b : Bundle) (key : list Z) args
    (ls : list (list Z)) :
  Forall (fun lang => message_of b lang key = None) ls ->
  T_loop fuel reg c b ls key args = Done (key, c).
Proof.
  induction 1 as [|lang ls H _ IH]; [reflexivity|].
  rewrite T_loop_cons, H. exact IH.
Qed.

(** X25.  A message that only the default language has is what [T]
    renders for a locale of any language with no fallback list, and is
    out of reach of a locale whose language has a fallback list that
    leaves the default language out: that locale gets the key back. *)
Theorem X25_default_language (fuel : nat) reg c (cfg : Config) (b : Bundle)
    (lang key text : list Z) args :
  config b = config (New cfg) ->
  message_of b (DefaultLang (config (New cfg))) key = Some text ->
  (lang = [] \/ message_of b lang key = None) ->
  (lang = [] \/ Fallbacks cfg !! lang = None \/ Fallbacks cfg !! lang = Some [] ->
   T fuel reg c (Bundle_Locale b lang) key args
   = rendered_or_text text (RenderTemplate fuel reg c text args))
  /\ (forall l fb,
        lang <> [] -> Fallbacks cfg !! lang = Some (l :: fb) ->
        Forall (fun x => message_of b x key = None) (l :: fb) ->
        T fuel reg c (Bundle_Locale b lang) key args = Done (key, c)).
Proof.
  intros Hb Hdef Hlang.
  destruct (locale_chain cfg b lang Hb) as (Hd & _ & Hfb & Hno).
  unfold T. change (bundle (Bundle_Locale b lang)) with (Some b). cbv iota beta.
  split.
  - intros Hcase. destruct Hlang as [-> | Hlang].
    + replace (langs (Bundle_Locale b [])) with [DefaultLang (config (New cfg))]
        by (unfold Bundle_Locale; rewrite Hb; reflexivity).
      rewrite T_loop_cons, Hdef. reflexivity.
    + destruct (Hno Hcase) as (_ & _ & [Hc | Hc]); rewrite Hc.
      * rewrite T_loop_cons, Hdef. reflexivity.
      * rewrite T_loop_cons, Hlang, T_loop_cons, Hdef. reflexivity.
  - intros l fb Hl Hf Hall. rewrite (Hfb l fb Hl Hf). apply T_loop_none, Hall.
Qed.

End MoreBundle.

Lemma X24_witness :
  let cfg := {| DefaultLang := []; Fallbacks := {[gs "zh-CN" := [gs "zh-CN"; gs "zh"]]} |} in
  let b := New cfg in
  config b = config (New cfg)
  /\ langs (Bundle_Locale b (gs "zh-CN")) = [gs "zh-CN"; gs "zh"]
  /\ langs (Bundle_Locale b (gs "fr")) = [gs "fr"; gs "en"]
  /\ langs (Bundle_Locale b (gs "en")) = [gs "en"]
  /\ langs (Bundle_Locale b []) = [gs "en"]
  /\ langs (Bundle_Locale b (gs "fr")) <> [].
Proof.
  intros cfg b.
  assert (H : config b = config (New cfg)) by reflexivity.
  split; [exact H|].
  repeat (split; [vm_compute; reflexivity|]).
  exact (proj1 (proj2 (X24_locale_chain cfg b (gs "fr") H))).
Defined.

Lemma X25_witness :
  let cfg := {| DefaultLang := []; Fallbacks := ∅ |} in
  let reg := init_registry (L := ascii_lib) in
  config example_bundle = config (New cfg)
  /\ message_of example_bundle (gs "en") (gs "hello") = Some (gs "Hi {name}")
  /\ message_of example_bundle (gs "fr") (gs "hello") = None
  /\ Fallbacks cfg !! gs "fr" = None
  /\ T (L := ascii_lib) 2 reg ∅ (Bundle_Locale example_bundle (gs "fr"))
       (gs "hello") [(gs "name", VString (gs "Tom"))]
     = rendered_or_text (gs "Hi {name}")
         (RenderTemplate (L := ascii_lib) 2 reg ∅ (gs "Hi {name}")
            [(gs "name", VString (gs "Tom"))]).
Proof.
  intros cfg reg.
  assert (H1 : config example_bundle = config (New cfg)) by reflexivity.
  assert (H2 : message_of example_bundle (DefaultLang (config (New cfg)))
                 (gs "hello") = Some (gs "Hi {name}")) by (vm_compute; reflexivity).
  assert (H3 : message_of example_bundle (gs "fr") (gs "hello") = None)
    by (vm_compute; reflexivity).
  assert (H4 : Fallbacks cfg !! gs "fr" = None) by (vm_compute; reflexivity).
  split; [exact H1|]. split; [exact H2|]. split; [exact H3|]. split; [exact H4|].
  exact (proj1 (X25_default_language (L := ascii_lib) 2 reg ∅ cfg example_bundle (gs "fr")
                  (gs "hello") (gs "Hi {name}") [(gs "name", VString (gs "Tom"))]
                  H1 H2 (or_intror H3))
           (or_intror (or_introl H4))).
Defined.
